(** * Name mangling of lib/IRGen/Mangle.cpp

    A shallow embedding of the declaration mangler: the part of the
    AST that the mangler reads, the [Mangler] class with its
    substitution table and archetype bindings, every mangling
    production, and [LinkEntity::mangle].  The theorems at the end
    state what the mangler guarantees about its output. *)

From Stdlib Require Import NArith String Ascii DecimalString List Lia.
From stdpp Require Import base option gmap strings.

Scheme All for list.
Scheme All for option.

Open Scope string_scope.

(** ** The AST consumed by the mangler *)

(** AST nodes are compared by address in the source (the keys of the
    two [DenseMap]s are pointers); a node that is used as a key
    carries its address. *)
Definition Addr := N.
Bind Scope N_scope with Addr.

(** Modelled from the spec: [Identifier] is declared in the AST
    headers, which are not part of the sources.  A name is its
    spelling, already known to be a plain identifier or an operator
    ([isOperator()]). *)
Record Identifier := {
  str : string;
  isOperator : bool }.

Inductive ExplosionKind := Minimal | Maximal.

Inductive FPKind := IEEE16 | IEEE32 | IEEE64 | IEEE80 | IEEE128 | PPC128.

(** Modelled from the spec: what [getClangDecl()] returns for a
    declaration of foreign origin.  The mangler only asks whether the
    Clang declaration is an [ObjCInterfaceDecl] or a [DeclaratorDecl],
    and for its name. *)
Inductive ClangDeclKind := ObjCInterfaceDecl | DeclaratorDecl | OtherClangDecl.

Record ClangDecl := {
  clangKind : ClangDeclKind;
  clangName : string }.

(** Modelled from the spec: the types, declarations, declaration
    contexts and generic parameter lists of the data model; their
    classes are declared in the AST headers, which are not part of
    the sources.  There is one constructor for each kind the mangler
    switches on and one field for each member function it calls.
    [SugaredType] stands for every SUGARED_TYPE of TypeNodes.def; the
    three BoundGeneric kinds share one case in [mangleType] and one
    constructor here.  A function type carries its calling-convention
    flag, the answer of [isBlockFunctionType].  [ExtensionDeclContext]
    holds [getExtendedType()->getCanonicalType()], and a declaration
    holds [getDeclContext()->getGenericParamsOfContext()].  The
    declaration kinds are the leaves of DeclNodes.def that
    [ClassifyDecl] and [getSpecifierForNominalType] tell apart. *)
Inductive Ty : Type :=
| ErrorType
| UnstructuredUnresolvedType
| DeducibleGenericParamType
| TypeVariableType
| ModuleType
| BuiltinFloatType (fpKind : FPKind)
| BuiltinIntegerType (bitWidth : N)
| BuiltinRawPointerType
| BuiltinOpaquePointerType
| BuiltinObjectPointerType
| BuiltinObjCPointerType
| SugaredType (underlying : Ty)
| MetaTypeType (instanceType : Ty)
| LValueType (objectType : Ty)
| TupleType (fields : list TupleTypeElt)
| OneOfType (decl : ValueDecl)
| ProtocolType (decl : ValueDecl)
| StructType (decl : ValueDecl)
| ClassType (decl : ValueDecl)
| UnboundGenericType (decl : ValueDecl)
| BoundGenericType (decl : ValueDecl) (genericArgs : list Ty)
| PolymorphicFunctionType (genericParams : GenericParamList)
    (input result : Ty) (isBlock : bool)
| ArchetypeType (archetype : Addr)
| FunctionType (input result : Ty) (isBlock : bool)
| ArrayType (size : N) (baseType : Ty)
| ProtocolCompositionType (protocols : list Ty)
with TupleTypeElt : Type :=
| mkTupleTypeElt (fieldName : option Identifier) (fieldType : Ty)
with ValueDecl : Type :=
| mkValueDecl (kind : DeclKind) (name : Identifier) (type : Ty)
    (declContext : DeclContext) (clangDecl : option ClangDecl)
    (objC : bool) (asmName : string) (declaredType : Addr)
    (genericParamsOfContext : option GenericParamList)
with DeclKind : Type :=
| TypeAliasDecl
| OneOfDecl
| StructDecl
| ClassDecl
| ProtocolDecl
| VarDecl
| FuncDecl (getterDecl setterDecl : option ValueDecl)
| OneOfElementDecl (hasArgumentType : bool)
| SubscriptDecl
| ConstructorDecl
| DestructorDecl
with DeclContext : Type :=
| BuiltinModule (module : Module)
| ClangModule (module : Module)
| TranslationUnit (module : Module)
| NominalTypeDeclContext (decl : ValueDecl)
| ExtensionDeclContext (extendedCanonicalType : Ty)
| CapturingExprContext (expr : CapturingExpr)
| ConstructorDeclContext (decl : ValueDecl)
| DestructorDeclContext (decl : ValueDecl)
| TopLevelCodeDeclContext
with CapturingExpr : Type :=
| FuncExpr (funcDecl : option ValueDecl)
| OtherCapturingExpr
with Module : Type :=
| mkModule (moduleAddr : Addr) (moduleName : Identifier)
    (parent : option DeclContext)
with GenericParamList : Type :=
| mkGenericParamList (allArchetypes : list Archetype)
    (outerParameters : option GenericParamList)
with Archetype : Type :=
| mkArchetype (archetypeAddr : Addr) (conformsTo : list ValueDecl).

Scheme Ty_mutind := Induction for Ty Sort Prop
  with TupleTypeElt_mutind := Induction for TupleTypeElt Sort Prop
  with ValueDecl_mutind := Induction for ValueDecl Sort Prop
  with DeclKind_mutind := Induction for DeclKind Sort Prop
  with DeclContext_mutind := Induction for DeclContext Sort Prop
  with CapturingExpr_mutind := Induction for CapturingExpr Sort Prop
  with Module_mutind := Induction for Module Sort Prop
  with GenericParamList_mutind := Induction for GenericParamList Sort Prop
  with Archetype_mutind := Induction for Archetype Sort Prop.

Combined Scheme AST_mutind from Ty_mutind, TupleTypeElt_mutind,
  ValueDecl_mutind, DeclKind_mutind, DeclContext_mutind,
  CapturingExpr_mutind, Module_mutind, GenericParamList_mutind,
  Archetype_mutind.

(** A pointer that may be null. *)
Definition notNull {A} (p : option A) : bool :=
  match p with Some _ => true | None => false end.

(** Accessors, named after the C++ member functions. *)
Definition getKind (d : ValueDecl) : DeclKind :=
  match d with mkValueDecl k _ _ _ _ _ _ _ _ => k end.
Definition getName (d : ValueDecl) : Identifier :=
  match d with mkValueDecl _ n _ _ _ _ _ _ _ => n end.
Definition getType (d : ValueDecl) : Ty :=
  match d with mkValueDecl _ _ t _ _ _ _ _ _ => t end.
Definition getDeclContext (d : ValueDecl) : DeclContext :=
  match d with mkValueDecl _ _ _ c _ _ _ _ _ => c end.
Definition getClangDecl (d : ValueDecl) : option ClangDecl :=
  match d with mkValueDecl _ _ _ _ c _ _ _ _ => c end.
Definition isObjC (d : ValueDecl) : bool :=
  match d with mkValueDecl _ _ _ _ _ o _ _ _ => o end.
Definition AsmName (d : ValueDecl) : string :=
  match d with mkValueDecl _ _ _ _ _ _ a _ _ => a end.
Definition getDeclaredType (d : ValueDecl) : Addr :=
  match d with mkValueDecl _ _ _ _ _ _ _ a _ => a end.
Definition getGenericParamsOfContext (d : ValueDecl)
  : option GenericParamList :=
  match d with mkValueDecl _ _ _ _ _ _ _ _ g => g end.

Definition getGetterDecl (func : ValueDecl) : option ValueDecl :=
  match getKind func with FuncDecl g _ => g | _ => None end.
Definition getSetterDecl (func : ValueDecl) : option ValueDecl :=
  match getKind func with FuncDecl _ s => s | _ => None end.
Definition isGetterOrSetter (func : ValueDecl) : bool :=
  notNull (getGetterDecl func) || notNull (getSetterDecl func).

Definition isClassDecl (d : ValueDecl) : bool :=
  match getKind d with ClassDecl => true | _ => false end.
Definition isConstructorDecl (d : ValueDecl) : bool :=
  match getKind d with ConstructorDecl => true | _ => false end.

Definition getParent (m : Module) : option DeclContext :=
  match m with mkModule _ _ p => p end.
Definition Name (m : Module) : Identifier :=
  match m with mkModule _ n _ => n end.
Definition moduleAddress (m : Module) : Addr :=
  match m with mkModule a _ _ => a end.

Definition getAllArchetypes (g : GenericParamList) : list Archetype :=
  match g with mkGenericParamList l _ => l end.
Definition getOuterParameters (g : GenericParamList)
  : option GenericParamList :=
  match g with mkGenericParamList _ o => o end.

(** [dyn_cast<Module>(ctx)]: the three module kinds are [Module]s. *)
Definition dyn_cast_Module (ctx : DeclContext) : option Module :=
  match ctx with
  | BuiltinModule m | ClangModule m | TranslationUnit m => Some m
  | _ => None
  end.

(** [getDesugaredType]: removes every layer of sugar at the top. *)
Fixpoint getDesugaredType (t : Ty) : Ty :=
  match t with
  | SugaredType underlying => getDesugaredType underlying
  | _ => t
  end.

(** [T->castTo<AnyFunctionType>()]: looks through sugar. *)
Definition castTo_AnyFunctionType (t : Ty) : option Ty :=
  match getDesugaredType t with
  | (FunctionType _ _ _ | PolymorphicFunctionType _ _ _ _) as fn => Some fn
  | _ => None
  end.

(** ** Output and state *)

(** Decimal output of an unsigned number ([raw_ostream << unsigned]). *)
Definition decimal (n : N) : string := NilEmpty.string_of_uint (N.to_uint n).

Definition strSize (s : string) : N := N.of_nat (String.length s).

(** [unsigned] arithmetic wraps at 2^32. *)
Definition wrap32 (n : N) : N := (n mod 2 ^ 32)%N.

Record ArchetypeInfo := {
  Depth : N;
  Index : N }.

(** The mutable members of [class Mangler].  [Buffer] is a reference
    to a [raw_ostream], which can only be appended to: a mangling
    step returns the bytes it appends. *)
Record Mangler := {
  Substitutions : gmap Addr N;
  Archetypes : gmap Addr ArchetypeInfo;
  ArchetypesDepth : N }.

(** [Mangler(buffer)]: empty tables, depth 0. *)
Definition newMangler : Mangler :=
  {| Substitutions := ∅; Archetypes := ∅; ArchetypesDepth := 0 |}.

(** A mangling step: from a state, either a fatal error
    ([llvm_unreachable], a failed [assert] or [cast], which abort the
    request) or a result, the bytes appended to [Buffer], and the new
    state. *)
Definition Mangle (A : Type) : Type :=
  Mangler → option (A * string * Mangler).

#[global] Instance Mangle_ret : MRet Mangle := λ A x s, Some (x, "", s).

#[global] Instance Mangle_bind : MBind Mangle := λ A B f m s,
  match m s with
  | None => None
  | Some (a, o1, s1) =>
      match f a s1 with
      | None => None
      | Some (b, o2, s2) => Some (b, o1 ++ o2, s2)
      end
  end.

Definition llvm_unreachable {A} : Mangle A := λ _, None.

Definition assert (b : bool) : Mangle unit :=
  if b then mret tt else llvm_unreachable.

(** [Buffer << o]. *)
Definition emit (o : string) : Mangle unit := λ s, Some (tt, o, s).

Definition getState : Mangle Mangler := λ s, Some (s, "", s).

Definition setArchetypesDepth (d : N) : Mangle unit := λ s,
  Some (tt, "", {| Substitutions := Substitutions s;
                   Archetypes := Archetypes s;
                   ArchetypesDepth := d |}).

(** [llvm::SaveAndRestore<unsigned> old(ArchetypesDepth)] around the
    rest of a function body. *)
Definition SaveAndRestore_ArchetypesDepth (body : Mangle unit)
  : Mangle unit :=
  s ← getState;
  body ;;
  setArchetypesDepth (ArchetypesDepth s).

(** A range-based [for] loop. *)
Definition forEach {A} (l : list A) (f : A → Mangle unit) : Mangle unit :=
  (fix loop (l : list A) : Mangle unit :=
     match l with
     | [] => mret tt
     | x :: l' => f x ;; loop l'
     end) l.

(** The bytes a step appends when run from a state. *)
Definition output {A} (m : Mangle A) (s : Mangler) : option string :=
  match m s with
  | Some (_, o, _) => Some o
  | None => None
  end.

(** ** Leaf productions *)

(** Translate the given operator character into its mangled form. *)
Definition mangleOperatorChar (op : ascii) : option ascii :=
  if Ascii.eqb op "&" then Some "a"%char
  else if Ascii.eqb op "/" then Some "d"%char
  else if Ascii.eqb op "=" then Some "e"%char
  else if Ascii.eqb op ">" then Some "g"%char
  else if Ascii.eqb op "<" then Some "l"%char
  else if Ascii.eqb op "*" then Some "m"%char
  else if Ascii.eqb op "!" then Some "n"%char
  else if Ascii.eqb op "|" then Some "o"%char
  else if Ascii.eqb op "+" then Some "p"%char
  else if Ascii.eqb op "%" then Some "r"%char
  else if Ascii.eqb op "-" then Some "s"%char
  else if Ascii.eqb op "^" then Some "x"%char
  else if Ascii.eqb op "~" then Some "t"%char
  else if Ascii.eqb op "." then Some "z"%char
  else None.

Definition isSwiftModule (module : Module) : bool :=
  negb (notNull (getParent module))
  && String.eqb (str (Name module)) "swift".

(** [operator<<(raw_ostream &, Index)]. *)
Definition Index_out (n : N) : string :=
  (if (n =? 0)%N then "" else decimal (n - 1)) ++ "_".

(** The loop of [mangleIdentifier] over the operator characters. *)
Fixpoint mangleOperatorChars (s : string) : Mangle unit :=
  match s with
  | EmptyString => mret tt
  | String c rest =>
      match mangleOperatorChar c with
      | Some m => emit (String m EmptyString)
      | None => llvm_unreachable
      end ;;
      mangleOperatorChars rest
  end.

(** Mangle an identifier into the buffer. *)
Definition mangleIdentifier (ident : Identifier) : Mangle unit :=
  assert (negb (String.eqb (str ident) "")) ;;
  if negb (isOperator ident) then
    emit (decimal (strSize (str ident))) ;; emit (str ident)
  else
    emit "op" ;;
    emit (decimal (strSize (str ident))) ;;
    mangleOperatorChars (str ident).

Definition tryMangleSubstitution (ptr : Addr) : Mangle bool := λ s,
  match Substitutions s !! ptr with
  | None => Some (false, "", s)
  | Some index =>
      Some (true,
            "S" ++ (if (index =? 0)%N then "" else decimal (index - 1)) ++ "_",
            s)
  end.

(** [Substitutions.insert(std::make_pair(ptr, Substitutions.size()))]:
    the index is the number of entries, and [DenseMap::insert] leaves
    an existing entry as it is. *)
Definition addSubstitution (ptr : Addr) : Mangle unit := λ s,
  Some (tt, "",
        {| Substitutions :=
             match Substitutions s !! ptr with
             | Some _ => Substitutions s
             | None => <[ptr := N.of_nat (size (Substitutions s))]>
                         (Substitutions s)
             end;
           Archetypes := Archetypes s;
           ArchetypesDepth := ArchetypesDepth s |}).

(** [Archetypes.insert] after [assert(!Archetypes.count(archetype))]. *)
Definition bindArchetype (archetype : Addr) (index : N) : Mangle unit := λ s,
  match Archetypes s !! archetype with
  | Some _ => None
  | None =>
      Some (tt, "",
            {| Substitutions := Substitutions s;
               Archetypes :=
                 <[archetype := {| Depth := ArchetypesDepth s;
                                   Index := index |}]> (Archetypes s);
               ArchetypesDepth := ArchetypesDepth s |})
  end.

(** The loop [do { ++ArchetypesDepth; } while ((parent =
    parent->getOuterParameters()))] of [bindGenericParameters]. *)
Fixpoint enterGenericParamLists (parent : GenericParamList) : Mangle unit :=
  match parent with
  | mkGenericParamList _ outer =>
      (s ← getState; setArchetypesDepth (wrap32 (ArchetypesDepth s + 1))) ;;
      match outer with
      | Some parent' => enterGenericParamLists parent'
      | None => mret tt
      end
  end.

(** A [for] loop that carries [unsigned index = 0; ... index++]. *)
Definition forEachIndexed {A} (index : N) (l : list A)
    (f : N → A → Mangle unit) : Mangle unit :=
  (fix loop (l : list A) (index : N) : Mangle unit :=
     match l with
     | [] => mret tt
     | x :: l' => f index x ;; loop l' (wrap32 (index + 1))
     end) l index.

Definition getSpecifierForNominalType (decl : ValueDecl) : option string :=
  match getKind decl with
  | ProtocolDecl => Some "P"
  | ClassDecl => Some "C"
  | OneOfDecl => Some "O"
  | StructDecl => Some "V"
  | _ => None
  end.

Definition tryMangleStandardSubstitution (decl : ValueDecl) : Mangle bool :=
  match dyn_cast_Module (getDeclContext decl) with
  | None => mret false
  | Some parent =>
      if negb (isSwiftModule parent) then mret false
      else
        let name := str (getName decl) in
        if String.eqb name "Int64" then emit "Si" ;; mret true
        else if String.eqb name "UInt64" then emit "Su" ;; mret true
        else if String.eqb name "Bool" then emit "Sb" ;; mret true
        else if String.eqb name "Char" then emit "Sc" ;; mret true
        else if String.eqb name "Float64" then emit "Sd" ;; mret true
        else if String.eqb name "Float32" then emit "Sf" ;; mret true
        else if String.eqb name "String" then emit "SS" ;; mret true
        else mret false
  end.

(** The [ClassifyDecl] visitor of [mangleDeclType]: whether the type
    is mangled, and whether the archetypes of the context are bound. *)
Definition ClassifyDecl (decl : ValueDecl) : bool * bool :=
  match getKind decl with
  | TypeAliasDecl | OneOfDecl | StructDecl | ClassDecl | ProtocolDecl =>
      (false, false)
  | FuncDecl _ _ | ConstructorDecl | DestructorDecl => (true, false)
  | VarDecl | SubscriptDecl => (true, true)
  | OneOfElementDecl hasArgumentType => (true, hasArgumentType)
  end.

(** ** The recursive productions

    [mangleType], [mangleDeclContext] and [bindGenericParameters]
    recurse into the AST.  The productions on a declaration call each
    other on that same declaration; they are written once, in
    [Productions], over the three recursive ones, which are then tied
    together by the [Fixpoint] below. *)
Module Productions.
Section Productions.
Variable mangleType : Ty → ExplosionKind → N → Mangle unit.
Variable mangleDeclContext : DeclContext → Mangle unit.
Variable bindGenericParameters : GenericParamList → bool → Mangle unit.

(** Mangle the context of the given declaration as a <context>. *)
Definition mangleContextOf (decl : ValueDecl) : Mangle unit :=
  let clangDecl := getClangDecl decl in
  if isClassDecl decl && (notNull clangDecl || isObjC decl)
  then
    assert (match clangDecl with
            | None => true
            | Some c =>
                match clangKind c with
                | ObjCInterfaceDecl => true
                | _ => false
                end
            end) ;;
    emit "So"
  else mangleDeclContext (getDeclContext decl).

Definition mangleDeclType (decl : ValueDecl) (explosion : ExplosionKind)
    (uncurryLevel : N) : Mangle unit :=
  let result := ClassifyDecl decl in
  assert (result.1 || negb result.2) ;;
  SaveAndRestore_ArchetypesDepth (
    (if result.2 then
       match getGenericParamsOfContext decl with
       | Some genericParams => bindGenericParameters genericParams false
       | None => mret tt
       end
     else mret tt) ;;
    if result.1 then mangleType (getType decl) explosion uncurryLevel
    else mret tt).

(** [includeType] is [IncludeType::Yes]. *)
Definition mangleDeclName (decl : ValueDecl) (includeType : bool)
  : Mangle unit :=
  mangleContextOf decl ;;
  mangleIdentifier (getName decl) ;;
  if negb includeType then mret tt
  else mangleDeclType decl Minimal 0.

(** [D] is [func->getGetterDecl()], or [func->getSetterDecl()] when
    that is null. *)
Definition mangleGetterOrSetterContext (func : ValueDecl) : Mangle unit :=
  assert (isGetterOrSetter func) ;;
  let rest (D : ValueDecl) : Mangle unit :=
    assert (match getKind D with
            | VarDecl | SubscriptDecl => true
            | _ => false
            end) ;;
    mangleDeclName D false ;;
    mangleDeclType D Minimal 0 ;;
    if notNull (getGetterDecl func) then emit "g" else emit "s" in
  match getKind func with
  | FuncDecl (Some D) _ => rest D
  | FuncDecl None (Some D) => rest D
  | _ => llvm_unreachable
  end.

(** Mangle the name of a protocol as a substitution candidate. *)
Definition mangleProtocolName (protocol : ValueDecl) : Mangle unit :=
  let type := getDeclaredType protocol in
  found ← tryMangleSubstitution type;
  if (found : bool) then mret tt
  else
    mangleDeclName protocol false ;;
    addSubstitution type.

Definition mangleNominalType (decl : ValueDecl) (explosion : ExplosionKind)
  : Mangle unit :=
  std ← tryMangleStandardSubstitution decl;
  if (std : bool) then mret tt
  else
    let key := getDeclaredType decl in
    found ← tryMangleSubstitution key;
    if (found : bool) then mret tt
    else
      match getSpecifierForNominalType decl with
      | Some c => emit c
      | None => llvm_unreachable
      end ;;
      mangleDeclName decl false ;;
      addSubstitution key.

(** [fn] is an [AnyFunctionType]. *)
Definition mangleFunctionType (fn : Ty) (explosion : ExplosionKind)
    (uncurryLevel : N) : Mangle unit :=
  match fn with
  | FunctionType input result isBlock
  | PolymorphicFunctionType _ input result isBlock =>
      (if isBlock then emit "b"
       else emit (if (0 <? uncurryLevel)%N then "f" else "F")) ;;
      mangleType input explosion 0 ;;
      mangleType result explosion
        (if (0 <? uncurryLevel)%N then uncurryLevel - 1 else 0)%N
  | _ => llvm_unreachable
  end.

Definition mangleEntity (decl : ValueDecl) (explosion : ExplosionKind)
    (uncurryLevel : N) : Mangle unit :=
  mangleDeclName decl false ;;
  mangleDeclType decl explosion uncurryLevel.
End Productions.
End Productions.

(** The [TypeKind::Archetype] case of [mangleType]. *)
Definition mangleArchetype (archetype : Addr) : Mangle unit :=
  s ← getState;
  match Archetypes s !! archetype with
  | None => llvm_unreachable
  | Some info =>
      assert (Depth info <=? ArchetypesDepth s)%N ;;
      emit "Q" ;;
      let relativeDepth := (ArchetypesDepth s - Depth info)%N in
      (if negb (relativeDepth =? 0)%N
       then emit "d" ;; emit (Index_out (relativeDepth - 1))
       else mret tt) ;;
      emit (Index_out (Index info))
  end.

Definition mangleBuiltinFloat (fpKind : FPKind) : Mangle unit :=
  match fpKind with
  | IEEE16 => emit "Bf16_"
  | IEEE32 => emit "Bf32_"
  | IEEE64 => emit "Bf64_"
  | IEEE80 => emit "Bf80_"
  | IEEE128 => emit "Bf128_"
  | PPC128 => llvm_unreachable
  end.

(** Mangle a type into the buffer.  The SUGARED_TYPE case removes
    one layer of sugar per step; [mangleProtocolType] is
    [mangleProtocolName(protoTy->castTo<ProtocolType>()->getDecl())],
    the body of the loop of [mangleProtocolList(ArrayRef<Type>)]. *)
Fixpoint mangleType (type : Ty) (explosion : ExplosionKind)
    (uncurryLevel : N) {struct type} : Mangle unit :=
  match type with
  | ErrorType => llvm_unreachable
  | UnstructuredUnresolvedType | DeducibleGenericParamType =>
      llvm_unreachable
  | TypeVariableType => llvm_unreachable
  | ModuleType => llvm_unreachable
  | BuiltinFloatType fpKind => mangleBuiltinFloat fpKind
  | BuiltinIntegerType bitWidth =>
      emit "Bi" ;; emit (decimal bitWidth) ;; emit "_"
  | BuiltinRawPointerType => emit "Bp"
  | BuiltinOpaquePointerType => emit "Bu"
  | BuiltinObjectPointerType => emit "Bo"
  | BuiltinObjCPointerType => emit "BO"
  | SugaredType underlying => mangleType underlying explosion uncurryLevel
  | MetaTypeType instanceType =>
      emit "M" ;; mangleType instanceType Minimal 0
  | LValueType objectType =>
      emit "R" ;; mangleType objectType Minimal 0
  | TupleType fields =>
      emit "T" ;;
      forEach fields (λ field,
        match field with
        | mkTupleTypeElt fieldName fieldType =>
            match fieldName with
            | Some n => mangleIdentifier n
            | None => mret tt
            end ;;
            mangleType fieldType explosion 0
        end) ;;
      emit "_"
  | OneOfType decl | ProtocolType decl | StructType decl | ClassType decl
  | UnboundGenericType decl =>
      Productions.mangleNominalType mangleType mangleDeclContext
        bindGenericParameters decl explosion
  | BoundGenericType decl genericArgs =>
      emit "G" ;;
      Productions.mangleNominalType mangleType mangleDeclContext
        bindGenericParameters decl explosion ;;
      forEach genericArgs (λ arg, mangleType arg Minimal 0) ;;
      emit "_"
  | PolymorphicFunctionType genericParams _ _ _ =>
      emit "U" ;;
      SaveAndRestore_ArchetypesDepth (
        bindGenericParameters genericParams true ;;
        Productions.mangleFunctionType mangleType type explosion
          uncurryLevel)
  | ArchetypeType archetype => mangleArchetype archetype
  | FunctionType _ _ _ =>
      Productions.mangleFunctionType mangleType type explosion uncurryLevel
  | ArrayType size baseType =>
      emit "A" ;; emit (decimal size) ;; mangleType baseType Minimal 0
  | ProtocolCompositionType protocols =>
      assert (negb (length protocols =? 1)%nat) ;;
      emit "P" ;;
      forEach protocols (λ protoTy, mangleProtocolType protoTy) ;;
      emit "_"
  end

with mangleProtocolType (protoTy : Ty) {struct protoTy} : Mangle unit :=
  match protoTy with
  | SugaredType underlying => mangleProtocolType underlying
  | ProtocolType decl =>
      Productions.mangleProtocolName mangleType mangleDeclContext
        bindGenericParameters decl
  | _ => llvm_unreachable
  end

with mangleDeclContext (ctx : DeclContext) {struct ctx} : Mangle unit :=
  match ctx with
  | BuiltinModule _ => llvm_unreachable
  | ClangModule _ => mret tt
  | TranslationUnit module =>
      if isSwiftModule module then emit "Ss"
      else
        found ← tryMangleSubstitution (moduleAddress module);
        if (found : bool) then mret tt
        else
          match module with
          | mkModule _ _ (Some parent) => mangleDeclContext parent
          | mkModule _ _ None => mret tt
          end ;;
          mangleIdentifier (Name module) ;;
          addSubstitution (moduleAddress module)
  | NominalTypeDeclContext decl =>
      Productions.mangleNominalType mangleType mangleDeclContext
        bindGenericParameters decl Minimal
  | ExtensionDeclContext extendedCanonicalType =>
      mangleType extendedCanonicalType Minimal 0
  | CapturingExprContext (FuncExpr (Some funcDecl)) =>
      if isGetterOrSetter funcDecl then
        Productions.mangleGetterOrSetterContext mangleType mangleDeclContext
          bindGenericParameters funcDecl
      else
        Productions.mangleDeclName mangleType mangleDeclContext
          bindGenericParameters funcDecl true
  | CapturingExprContext _ => llvm_unreachable
  | ConstructorDeclContext decl =>
      Productions.mangleDeclName mangleType mangleDeclContext
        bindGenericParameters decl true
  | DestructorDeclContext decl =>
      Productions.mangleDeclName mangleType mangleDeclContext
        bindGenericParameters decl false
  | TopLevelCodeDeclContext => mret tt
  end

with bindGenericParameters (genericParams : GenericParamList)
    (mangle : bool) {struct genericParams} : Mangle unit :=
  enterGenericParamLists genericParams ;;
  forEachIndexed 0 (getAllArchetypes genericParams) (λ index archetype,
    match archetype with
    | mkArchetype archetypeAddr conformsTo =>
        bindArchetype archetypeAddr index ;;
        if negb mangle then mret tt
        else
          forEach conformsTo (λ protocol,
            Productions.mangleProtocolName mangleType mangleDeclContext
              bindGenericParameters protocol) ;;
          emit "_"
    end) ;;
  if mangle then emit "_" else mret tt.

(** The productions on declarations, closed over the recursive ones. *)
Definition mangleContextOf : ValueDecl → Mangle unit :=
  Productions.mangleContextOf mangleDeclContext.
Definition mangleDeclType : ValueDecl → ExplosionKind → N → Mangle unit :=
  Productions.mangleDeclType mangleType bindGenericParameters.
Definition mangleDeclName : ValueDecl → bool → Mangle unit :=
  Productions.mangleDeclName mangleType mangleDeclContext
    bindGenericParameters.
Definition mangleGetterOrSetterContext : ValueDecl → Mangle unit :=
  Productions.mangleGetterOrSetterContext mangleType mangleDeclContext
    bindGenericParameters.
Definition mangleProtocolName : ValueDecl → Mangle unit :=
  Productions.mangleProtocolName mangleType mangleDeclContext
    bindGenericParameters.
Definition mangleNominalType : ValueDecl → ExplosionKind → Mangle unit :=
  Productions.mangleNominalType mangleType mangleDeclContext
    bindGenericParameters.
Definition mangleFunctionType : Ty → ExplosionKind → N → Mangle unit :=
  Productions.mangleFunctionType mangleType.
Definition mangleEntity : ValueDecl → ExplosionKind → N → Mangle unit :=
  Productions.mangleEntity mangleType mangleDeclContext
    bindGenericParameters.

(** [mangleProtocolList(ArrayRef<ProtocolDecl*>)] and
    [mangleProtocolList(ArrayRef<Type>)]. *)
Definition mangleProtocolList (protocols : list ValueDecl) : Mangle unit :=
  forEach protocols (λ protocol, mangleProtocolName protocol).
Definition mangleProtocolList_types (protocols : list Ty) : Mangle unit :=
  forEach protocols (λ protoTy, mangleProtocolType protoTy).

Definition manglePolymorphicType (genericParams : GenericParamList)
    (T : Ty) (explosion : ExplosionKind) (uncurryLevel : N)
    (mangleAsFunction : bool) : Mangle unit :=
  SaveAndRestore_ArchetypesDepth (
    bindGenericParameters genericParams true ;;
    if mangleAsFunction then
      match castTo_AnyFunctionType T with
      | Some fn => mangleFunctionType fn explosion uncurryLevel
      | None => llvm_unreachable
      end
    else mangleType T explosion uncurryLevel).

(** ** Entities *)

(** Modelled from the spec: the selectors of an entity, with the
    enumerators the [switch]es of the source name. *)
Inductive ConstructorKind := Allocating | Initializing.
Inductive DestructorKind := Deallocating | Destroying.

Inductive ValueWitness :=
| AllocateBuffer | AssignWithCopy | AssignWithTake | DeallocateBuffer
| Destroy | DestroyBuffer | InitializeBufferWithCopyOfBuffer
| InitializeBufferWithCopy | InitializeWithCopy | InitializeBufferWithTake
| InitializeWithTake | ProjectBuffer
| Size | Alignment | Stride.

Definition mangleConstructorKind (kind : ConstructorKind) : string :=
  match kind with
  | Allocating => "C"
  | Initializing => "c"
  end.

Definition mangleValueWitness (witness : ValueWitness) : option string :=
  match witness with
  | AllocateBuffer => Some "al"
  | AssignWithCopy => Some "ac"
  | AssignWithTake => Some "at"
  | DeallocateBuffer => Some "de"
  | Destroy => Some "xx"
  | DestroyBuffer => Some "XX"
  | InitializeBufferWithCopyOfBuffer => Some "CP"
  | InitializeBufferWithCopy => Some "Cp"
  | InitializeWithCopy => Some "cp"
  | InitializeBufferWithTake => Some "Tk"
  | InitializeWithTake => Some "tk"
  | ProjectBuffer => Some "pr"
  | Size | Alignment | Stride => None
  end.

Definition mangleDirectness (isIndirect : bool) : Mangle unit :=
  emit (if isIndirect then "i" else "d").

(** Modelled from the spec: [LinkEntity] is declared in Linking.h,
    which is not part of the sources.  It is the tagged request of the
    data model: one constructor per [Kind] of the [switch] in
    [LinkEntity::mangle], carrying what the case reads
    ([getDecl], [getType], [getExplosionKind], [getUncurryLevel],
    [isLocalLinkage] and the kind-specific selectors).  An anonymous
    function is identified by the address of its expression and, as
    every request of the data model, carries an explosion kind, an
    uncurry level and the local-linkage flag. *)
Inductive LinkEntity :=
| AnonymousFunction (fn : Addr) (explosion : ExplosionKind)
    (uncurryLevel : N) (isLocalLinkage : bool)
| ValueWitnessEntity (witness : ValueWitness) (type : Ty)
| ValueWitnessTable (type : Ty)
| TypeMangling (type : Ty)
| TypeMetadata (type : Ty) (isPattern isIndirect : bool)
| SwiftMetaclassStub (decl : ValueDecl)
| WitnessTableOffset (decl : ValueDecl) (explosion : ExplosionKind)
    (uncurryLevel : N)
| FieldOffset (decl : ValueDecl) (isIndirect : bool)
| BridgeToBlockConverter (type : Ty)
| Destructor (decl : ValueDecl) (kind : DestructorKind)
    (isLocalLinkage : bool)
| Constructor (decl : ValueDecl) (kind : ConstructorKind)
    (explosion : ExplosionKind) (uncurryLevel : N) (isLocalLinkage : bool)
| Function (decl : ValueDecl) (explosion : ExplosionKind)
    (uncurryLevel : N) (isLocalLinkage : bool)
| Other (decl : ValueDecl) (explosion : ExplosionKind)
    (uncurryLevel : N) (isLocalLinkage : bool)
| Getter (decl : ValueDecl) (explosion : ExplosionKind)
    (uncurryLevel : N) (isLocalLinkage : bool)
| Setter (decl : ValueDecl) (explosion : ExplosionKind)
    (uncurryLevel : N) (isLocalLinkage : bool)
| ObjCClass (decl : ValueDecl)
| ObjCMetaclass (decl : ValueDecl).

Definition localMarker (isLocalLinkage : bool) : Mangle unit :=
  if isLocalLinkage then emit "L" else mret tt.

(** The [Kind::Other] case, which [Kind::Function] falls through to. *)
Definition mangleOther (decl : ValueDecl) (explosion : ExplosionKind)
    (uncurryLevel : N) (isLocalLinkage : bool) : Mangle unit :=
  match getClangDecl decl with
  | Some {| clangKind := DeclaratorDecl; clangName := name |} => emit name
  | _ =>
      emit "_T" ;;
      localMarker isLocalLinkage ;;
      mangleEntity decl explosion uncurryLevel
  end.

(** The [switch] of [LinkEntity::mangle(raw_ostream &)], as a step of
    the fresh [Mangler] it constructs. *)
Definition mangleLinkEntity (entity : LinkEntity) : Mangle unit :=
  match entity with
  | AnonymousFunction _ _ _ _ => emit "closure"
  | ValueWitnessEntity witness type =>
      emit "_Tw" ;;
      match mangleValueWitness witness with
      | Some w => emit w
      | None => llvm_unreachable
      end ;;
      mangleType type Minimal 0
  | ValueWitnessTable type =>
      emit "_TWV" ;; mangleType type Minimal 0
  | TypeMangling type => mangleType type Minimal 0
  | TypeMetadata type isPattern isIndirect =>
      emit "_TM" ;;
      (if isPattern then emit "P" else mret tt) ;;
      mangleDirectness isIndirect ;;
      mangleType type Minimal 0
  | SwiftMetaclassStub decl =>
      emit "_TMm" ;;
      assert (isClassDecl decl) ;;
      mangleNominalType decl Minimal
  | WitnessTableOffset decl explosion uncurryLevel =>
      emit "_TWo" ;; mangleEntity decl explosion uncurryLevel
  | FieldOffset decl isIndirect =>
      emit "_TWv" ;;
      mangleDirectness isIndirect ;;
      mangleEntity decl Minimal 0
  | BridgeToBlockConverter type =>
      emit "_TTb" ;; mangleType type Minimal 0
  | Destructor decl kind isLocalLinkage =>
      emit "_T" ;;
      localMarker isLocalLinkage ;;
      assert (isClassDecl decl) ;;
      mangleDeclContext (NominalTypeDeclContext decl) ;;
      match kind with
      | Deallocating => emit "D"
      | Destroying => emit "d"
      end
  | Constructor decl kind explosion uncurryLevel isLocalLinkage =>
      emit "_T" ;;
      localMarker isLocalLinkage ;;
      assert (isConstructorDecl decl) ;;
      mangleContextOf decl ;;
      emit (mangleConstructorKind kind) ;;
      mangleDeclType decl explosion uncurryLevel
  | Function decl explosion uncurryLevel isLocalLinkage =>
      if negb (String.eqb (AsmName decl) "") then emit (AsmName decl)
      else mangleOther decl explosion uncurryLevel isLocalLinkage
  | Other decl explosion uncurryLevel isLocalLinkage =>
      mangleOther decl explosion uncurryLevel isLocalLinkage
  | Getter decl explosion uncurryLevel isLocalLinkage =>
      emit "_T" ;;
      localMarker isLocalLinkage ;;
      mangleEntity decl explosion uncurryLevel ;;
      emit "g"
  | Setter decl explosion uncurryLevel isLocalLinkage =>
      emit "_T" ;;
      localMarker isLocalLinkage ;;
      mangleEntity decl explosion uncurryLevel ;;
      emit "s"
  | ObjCClass decl => emit "OBJC_CLASS_$_" ;; emit (str (getName decl))
  | ObjCMetaclass decl =>
      emit "OBJC_METACLASS_$_" ;; emit (str (getName decl))
  end.

(** [LinkEntity::mangle]: the bytes written for the entity, or [None]
    on a fatal error. *)
Definition mangle (entity : LinkEntity) : option string :=
  output (mangleLinkEntity entity) newMangler.

(** ** Properties of steps *)

(** A step respects a relation on states when every successful run
    relates the state it starts from to the state it ends in. *)
Definition respects (R : Mangler → Mangler → Prop) {A} (m : Mangle A)
  : Prop :=
  ∀ s a o s', m s = Some (a, o, s') → R s s'.

(** No entry of the two tables is removed or changed. *)
Definition tablesGrow (s s' : Mangler) : Prop :=
  Substitutions s ⊆ Substitutions s' ∧ Archetypes s ⊆ Archetypes s'.

(** ... and [ArchetypesDepth] is what it was. *)
Definition framed (s s' : Mangler) : Prop :=
  tablesGrow s s' ∧ ArchetypesDepth s' = ArchetypesDepth s.

Definition typeFramed (t : Ty) : Prop :=
  (∀ e u, respects framed (mangleType t e u))
  ∧ respects framed (mangleProtocolType t).

Definition contextFramed (ctx : DeclContext) : Prop :=
  respects framed (mangleDeclContext ctx).

Definition genericsGrow (g : GenericParamList) : Prop :=
  ∀ mangle, respects tablesGrow (bindGenericParameters g mangle).

Definition declFramed (d : ValueDecl) : Prop :=
  respects framed (mangleContextOf d)
  ∧ (∀ e u, respects framed (mangleDeclType d e u))
  ∧ (∀ includeType, respects framed (mangleDeclName d includeType))
  ∧ respects framed (mangleGetterOrSetterContext d)
  ∧ respects framed (mangleProtocolName d)
  ∧ (∀ e, respects framed (mangleNominalType d e))
  ∧ (∀ e u, respects framed (mangleEntity d e u)).

Definition kindFramed (k : DeclKind) : Prop :=
  match k with
  | FuncDecl getter setter =>
      (∀ D, getter = Some D → declFramed D)
      ∧ (∀ D, setter = Some D → declFramed D)
  | _ => True
  end.

Definition exprFramed (expr : CapturingExpr) : Prop :=
  match expr with
  | FuncExpr (Some funcDecl) => declFramed funcDecl
  | _ => True
  end.

Definition moduleFramed (m : Module) : Prop :=
  match getParent m with
  | Some parent => contextFramed parent
  | None => True
  end.

Definition archetypeFramed (a : Archetype) : Prop :=
  match a with
  | mkArchetype _ conformsTo => Forall declFramed conformsTo
  end.

(** Two steps that behave alike from every state. *)
Definition sameStep {A} (m m' : Mangle A) : Prop := ∀ s, m s = m' s.

(** The explosion kind is passed down and never written. *)
Definition explosionIrrelevant (t : Ty) : Prop :=
  ∀ e e' u, sameStep (mangleType t e u) (mangleType t e' u).

(** ** Sample declarations *)

Definition plain (s : string) : Identifier :=
  {| str := s; isOperator := false |}.

(** The standard library module, and a user module [M]. *)
Definition swiftModule : Module := mkModule 1 (plain "swift") None.
Definition moduleM : Module := mkModule 2 (plain "M") None.
Definition clangModule : Module := mkModule 3 (plain "Foundation") None.

(** A type declaration; the mangler never reads its [getType]. *)
Definition typeDecl (kind : DeclKind) (name : string) (ctx : DeclContext)
    (declaredType : Addr) : ValueDecl :=
  mkValueDecl kind (plain name) ErrorType ctx None false "" declaredType None.

Definition Int64Decl : ValueDecl :=
  typeDecl StructDecl "Int64" (TranslationUnit swiftModule) 10.
Definition Float32Decl : ValueDecl :=
  typeDecl StructDecl "Float32" (TranslationUnit swiftModule) 11.
Definition PairDecl : ValueDecl :=
  typeDecl StructDecl "Pair" (TranslationUnit swiftModule) 12.
Definition Int32Decl : ValueDecl :=
  typeDecl StructDecl "Int32" (TranslationUnit swiftModule) 13.
Definition structA : ValueDecl :=
  typeDecl StructDecl "A" (TranslationUnit moduleM) 20.


(** [func foo(Int64)(Int64) -> Int64] in [M]. *)
Definition curriedType : Ty :=
  FunctionType (StructType Int64Decl)
    (FunctionType (StructType Int64Decl) (StructType Int64Decl) false) false.
Definition fooDecl : ValueDecl :=
  mkValueDecl (FuncDecl None None) (plain "foo") curriedType
    (TranslationUnit moduleM) None false "" 0 None.

(** The same function with [asmname="foo_impl"]. *)
Definition fooImplDecl : ValueDecl :=
  mkValueDecl (FuncDecl None None) (plain "foo") curriedType
    (TranslationUnit moduleM) None false "foo_impl" 0 None.


(** A stored property [x : Int64] of [A], and the class constructor. *)
Definition xDecl : ValueDecl :=
  mkValueDecl VarDecl (plain "x") (StructType Int64Decl)
    (NominalTypeDeclContext structA) None false "" 0 None.

(** ** The bypasses of [LinkEntity::mangle] *)


(** ** Aliases *)

(** The type with every sugar wrapper removed, also inside its
    component types: the fully resolved form of a type. *)
Fixpoint resolveAliases (t : Ty) : Ty :=
  match t with
  | SugaredType underlying => resolveAliases underlying
  | MetaTypeType instanceType => MetaTypeType (resolveAliases instanceType)
  | LValueType objectType => LValueType (resolveAliases objectType)
  | TupleType fields =>
      TupleType (map (λ field,
        match field with
        | mkTupleTypeElt n ty => mkTupleTypeElt n (resolveAliases ty)
        end) fields)
  | BoundGenericType decl genericArgs =>
      BoundGenericType decl (map resolveAliases genericArgs)
  | PolymorphicFunctionType g input result isBlock =>
      PolymorphicFunctionType g (resolveAliases input)
        (resolveAliases result) isBlock
  | FunctionType input result isBlock =>
      FunctionType (resolveAliases input) (resolveAliases result) isBlock
  | ArrayType size baseType => ArrayType size (resolveAliases baseType)
  | ProtocolCompositionType protocols =>
      ProtocolCompositionType (map resolveAliases protocols)
  | _ => t
  end.

(** [typealias MyInt = Int64] and a tuple written with it. *)
Definition MyInt : Ty := SugaredType (SugaredType (StructType Int64Decl)).
Definition aliasedTuple : Ty :=
  SugaredType (TupleType [mkTupleTypeElt (Some (plain "x")) MyInt;
                          mkTupleTypeElt None (ArrayType 4 MyInt)]).

(** ** Archetypes *)

(** The archetype token as the specification words it: the depth
    delta and the index are both written in the compact index grammar
    (nothing before the terminator for 0, [v - 1] in decimal for
    [v > 0]), and delta 0 is the plain [Q] form. *)
Definition compactIndex_spec (v : N) : string :=
  (if (v =? 0)%N then "" else decimal (v - 1)) ++ "_".
Definition archetypeToken_spec (delta index : N) : string :=
  "Q" ++ (if (delta =? 0)%N then "" else "d" ++ compactIndex_spec delta)
      ++ compactIndex_spec index.

(** The archetype token as the code writes it. *)
Definition archetypeToken (delta index : N) : string :=
  "Q" ++ (if (delta =? 0)%N then "" else "d" ++ Index_out (delta - 1))
      ++ Index_out index.

(** [func f<T>(T) -> <U>(T) -> U]: two generic scopes, the inner one
    refers to the parameter of the outer one. *)
Definition outerGenerics : GenericParamList :=
  mkGenericParamList [mkArchetype 100 []] None.
Definition innerGenerics : GenericParamList :=
  mkGenericParamList [mkArchetype 101 []] None.
Definition innerPoly : Ty :=
  PolymorphicFunctionType innerGenerics (ArchetypeType 100)
    (ArchetypeType 101) false.
Definition nestedPoly : Ty :=
  PolymorphicFunctionType outerGenerics (ArchetypeType 100) innerPoly false.

(** The state inside the inner scope of [nestedPoly]. *)
Definition insideInnerScope : Mangler :=
  {| Substitutions := ∅;
     Archetypes := <[101%N := {| Depth := 2; Index := 0 |}]>
                     (<[100%N := {| Depth := 1; Index := 0 |}]> ∅);
     ArchetypesDepth := 2 |}.

(** [func id<T>(T) -> T], and the state after mangling its type. *)
Definition simplePoly : Ty :=
  PolymorphicFunctionType outerGenerics (ArchetypeType 100)
    (ArchetypeType 100) false.
Definition afterSimplePoly : Mangler :=
  {| Substitutions := ∅;
     Archetypes := <[100%N := {| Depth := 1; Index := 0 |}]> ∅;
     ArchetypesDepth := 0 |}.

(** ** Shapes of output *)

(** [isa<AnyFunctionType>] of the desugared type. *)
Definition isAnyFunctionType (t : Ty) : bool :=
  match getDesugaredType t with
  | FunctionType _ _ _ | PolymorphicFunctionType _ _ _ _ => true
  | _ => false
  end.

Definition isDigit (c : ascii) : bool :=
  (48 <=? nat_of_ascii c)%nat && (nat_of_ascii c <=? 57)%nat.

(** The output starts with one of [0-9_]. *)
Definition startsWithDigitOrUnderscore (o : string) : bool :=
  match o with
  | String c _ => isDigit c || Ascii.eqb c "_"
  | EmptyString => false
  end.

(** The output ends with one of [0-9]. *)
Fixpoint endsWithDigit (o : string) : bool :=
  match o with
  | EmptyString => false
  | String c EmptyString => isDigit c
  | String _ rest => endsWithDigit rest
  end.

(** The output is not empty and starts with none of [0-9_]. *)
Definition startsLikeAType (o : string) : bool :=
  match o with
  | String c _ => negb (isDigit c || Ascii.eqb c "_")
  | EmptyString => false
  end.

(** Every successful run of the step writes such an output. *)
Definition writesTypeStart {A} (m : Mangle A) : Prop :=
  ∀ s a o s', m s = Some (a, o, s') → startsLikeAType o = true.

(** ** Substitutions *)

(** The back-reference to the entry recorded with [index]. *)
Definition backReference (index : N) : string :=
  "S" ++ (if (index =? 0)%N then "" else decimal (index - 1)) ++ "_".

(** The identities that take part in substitution: a module, a
    nominal type, a protocol named in a protocol list. *)
Inductive Substitutable :=
| SubstModule (module : Module)
| SubstNominalType (decl : ValueDecl)
| SubstProtocol (protocol : ValueDecl).

(** The key under which the identity is recorded. *)
Definition identityOf (x : Substitutable) : Addr :=
  match x with
  | SubstModule module => moduleAddress module
  | SubstNominalType decl => getDeclaredType decl
  | SubstProtocol protocol => getDeclaredType protocol
  end.

(** The production that mangles an occurrence of the identity. *)
Definition mangleOccurrence (x : Substitutable) : Mangle unit :=
  match x with
  | SubstModule module => mangleDeclContext (TranslationUnit module)
  | SubstNominalType decl => mangleNominalType decl Minimal
  | SubstProtocol protocol => mangleProtocolName protocol
  end.

(** The full spelling of the identity. *)
Definition fullSpelling (x : Substitutable) : Mangle unit :=
  match x with
  | SubstModule module =>
      match getParent module with
      | Some parent => mangleDeclContext parent
      | None => mret tt
      end ;;
      mangleIdentifier (Name module)
  | SubstNominalType decl =>
      match getSpecifierForNominalType decl with
      | Some c => emit c
      | None => llvm_unreachable
      end ;;
      mangleDeclName decl false
  | SubstProtocol protocol => mangleDeclName protocol false
  end.

(** The identity has a fixed token and stays out of the table: the
    [swift] module, and the standard types of
    [tryMangleStandardSubstitution]. *)
Definition hasFixedToken (x : Substitutable) : bool :=
  match x with
  | SubstModule module => isSwiftModule module
  | SubstNominalType decl =>
      match tryMangleStandardSubstitution decl newMangler with
      | Some (std, _, _) => std
      | None => false
      end
  | SubstProtocol _ => false
  end.

(** The state after the first mangling of [M] and of [M.A]. *)
Definition afterModuleM : Mangler :=
  {| Substitutions := <[2%N := 0%N]> ∅;
     Archetypes := ∅;
     ArchetypesDepth := 0 |}.
Definition afterStructA : Mangler :=
  {| Substitutions := <[20%N := 1%N]> (<[2%N := 0%N]> ∅);
     Archetypes := ∅;
     ArchetypesDepth := 0 |}.

(** A C struct [P] imported through Clang. *)
Definition structP : ValueDecl :=
  typeDecl StructDecl "P" (ClangModule clangModule) 40.

(** ** Requests *)




From Stdlib Require DecimalN DecimalPos.

(** ** Decoding what is written *)

(** Every character of the output is one of [0-9]. *)
Fixpoint allDigits (o : string) : bool :=
  match o with
  | EmptyString => true
  | String c rest => isDigit c && allDigits rest
  end.

(** The output starts with one of [0-9]. *)
Definition startsWithDigit (o : string) : bool :=
  match o with
  | String c _ => isDigit c
  | EmptyString => false
  end.

(** The digits of the compact index grammar: nothing for 0, [v - 1]
    in decimal for [v > 0]. *)
Definition indexDigits (v : N) : string :=
  if (v =? 0)%N then "" else decimal (v - 1).

(** The table of [tryMangleStandardSubstitution]: the names in the
    module [swift] that have a token of their own. *)
Definition standardSubstitutions : list (string * string) :=
  [("Int64", "Si"); ("UInt64", "Su"); ("Bool", "Sb"); ("Char", "Sc");
   ("Float64", "Sd"); ("Float32", "Sf"); ("String", "SS")].

(** The builtin types that [mangleType] gives a token. *)
Definition isBuiltinType (t : Ty) : bool :=
  match t with
  | BuiltinFloatType PPC128 => false
  | BuiltinFloatType _ | BuiltinIntegerType _ | BuiltinRawPointerType
  | BuiltinOpaquePointerType | BuiltinObjectPointerType
  | BuiltinObjCPointerType => true
  | _ => false
  end.

(** The number of generic parameter lists from the given one out. *)
Fixpoint chainLength (g : GenericParamList) : nat :=
  match g with
  | mkGenericParamList _ outer =>
      S (match outer with
         | Some parent => chainLength parent
         | None => 0
         end)
  end.

(** The state inside the scope of [outerGenerics]. *)
Definition insideOuterScope : Mangler :=
  {| Substitutions := ∅;
     Archetypes := <[100%N := {| Depth := 1; Index := 0 |}]> ∅;
     ArchetypesDepth := 1 |}.

(** ** Uncurrying *)

(** The number of function arrows on the result spine of a type. *)
Fixpoint arrows (t : Ty) : nat :=
  match t with
  | SugaredType underlying => arrows underlying
  | FunctionType _ result _ | PolymorphicFunctionType _ _ result _ =>
      S (arrows result)
  | _ => 0
  end.

(** The request with its uncurry level replaced. *)
Definition withUncurryLevel (u : N) (entity : LinkEntity) : LinkEntity :=
  match entity with
  | AnonymousFunction fn e _ l => AnonymousFunction fn e u l
  | WitnessTableOffset decl e _ => WitnessTableOffset decl e u
  | Constructor decl kind e _ l => Constructor decl kind e u l
  | Function decl e _ l => Function decl e u l
  | Other decl e _ l => Other decl e u l
  | Getter decl e _ l => Getter decl e u l
  | Setter decl e _ l => Setter decl e u l
  | _ => entity
  end.

(** The arrows of the type of the declaration of a request. *)
Definition entityArrows (entity : LinkEntity) : nat :=
  match entity with
  | WitnessTableOffset decl _ _ | Constructor decl _ _ _ _
  | Function decl _ _ _ | Other decl _ _ _ | Getter decl _ _ _
  | Setter decl _ _ _ => arrows (getType decl)
  | _ => 0
  end.

(** ** Members of extensions *)

(** The declaration of a nominal type, under its sugar. *)
Definition nominalDeclOf (t : Ty) : option ValueDecl :=
  match getDesugaredType t with
  | OneOfType decl | ProtocolType decl | StructType decl | ClassType decl
  | UnboundGenericType decl => Some decl
  | _ => None
  end.

(** The declaration, declared in another context. *)
Definition inContext (ctx : DeclContext) (d : ValueDecl) : ValueDecl :=
  match d with
  | mkValueDecl kind name type _ clangDecl objC asmName declaredType
      genericParams =>
      mkValueDecl kind name type ctx clangDecl objC asmName declaredType
        genericParams
  end.

(** The request, for another declaration. *)
Definition mapDecl (f : ValueDecl → ValueDecl) (entity : LinkEntity)
  : LinkEntity :=
  match entity with
  | SwiftMetaclassStub decl => SwiftMetaclassStub (f decl)
  | WitnessTableOffset decl e u => WitnessTableOffset (f decl) e u
  | FieldOffset decl isIndirect => FieldOffset (f decl) isIndirect
  | Destructor decl kind l => Destructor (f decl) kind l
  | Constructor decl kind e u l => Constructor (f decl) kind e u l
  | Function decl e u l => Function (f decl) e u l
  | Other decl e u l => Other (f decl) e u l
  | Getter decl e u l => Getter (f decl) e u l
  | Setter decl e u l => Setter (f decl) e u l
  | ObjCClass decl => ObjCClass (f decl)
  | ObjCMetaclass decl => ObjCMetaclass (f decl)
  | _ => entity
  end.

(** A method [get] of [struct A], and the same method declared in an
    extension of [A]. *)
Definition getInA : ValueDecl :=
  mkValueDecl (FuncDecl None None) (plain "get")
    (FunctionType (TupleType []) (StructType Int64Decl) false)
    (NominalTypeDeclContext structA) None false "" 0 None.
Definition getInExtensionOfA : ValueDecl :=
  inContext (ExtensionDeclContext (StructType structA)) getInA.

(** ** Invariants of the state *)

(** Every production on the type, the declaration, ... respects the
    relation. *)
Definition typeRespects (R : Mangler → Mangler → Prop) (t : Ty) : Prop :=
  (∀ e u, respects R (mangleType t e u))
  ∧ respects R (mangleProtocolType t).

Definition contextRespects (R : Mangler → Mangler → Prop)
    (ctx : DeclContext) : Prop :=
  respects R (mangleDeclContext ctx).

Definition genericsRespect (R : Mangler → Mangler → Prop)
    (g : GenericParamList) : Prop :=
  ∀ mangle, respects R (bindGenericParameters g mangle).

Definition declRespects (R : Mangler → Mangler → Prop) (d : ValueDecl)
  : Prop :=
  respects R (mangleContextOf d)
  ∧ (∀ e u, respects R (mangleDeclType d e u))
  ∧ (∀ includeType, respects R (mangleDeclName d includeType))
  ∧ respects R (mangleGetterOrSetterContext d)
  ∧ respects R (mangleProtocolName d)
  ∧ (∀ e, respects R (mangleNominalType d e))
  ∧ (∀ e u, respects R (mangleEntity d e u)).

Definition kindRespects (R : Mangler → Mangler → Prop) (k : DeclKind)
  : Prop :=
  match k with
  | FuncDecl getter setter =>
      (∀ D, getter = Some D → declRespects R D)
      ∧ (∀ D, setter = Some D → declRespects R D)
  | _ => True
  end.

Definition exprRespects (R : Mangler → Mangler → Prop)
    (expr : CapturingExpr) : Prop :=
  match expr with
  | FuncExpr (Some funcDecl) => declRespects R funcDecl
  | _ => True
  end.

Definition moduleRespects (R : Mangler → Mangler → Prop) (m : Module)
  : Prop :=
  match getParent m with
  | Some parent => contextRespects R parent
  | None => True
  end.

Definition archetypeRespects (R : Mangler → Mangler → Prop)
    (a : Archetype) : Prop :=
  match a with
  | mkArchetype _ conformsTo => Forall (declRespects R) conformsTo
  end.

(** A property of the state that, once true, stays true. *)
Definition preserves (P : Mangler → Prop) (s s' : Mangler) : Prop :=
  P s → P s'.

(** The indices of the substitution table are below its size and
    pairwise distinct. *)
Definition denseTable (s : Mangler) : Prop :=
  ∀ ptr index,
    Substitutions s !! ptr = Some index →
    (index < N.of_nat (size (Substitutions s)))%N
    ∧ ∀ ptr', Substitutions s !! ptr' = Some index → ptr' = ptr.

(** ** Types that cannot be mangled *)

(** The type has, in its structure, a type that [mangleType] has no
    production for: an error, unresolved or module type, or the PPC
    128-bit float. *)
Fixpoint hasUnmangleablePart (t : Ty) : bool :=
  match t with
  | ErrorType | UnstructuredUnresolvedType | DeducibleGenericParamType
  | TypeVariableType | ModuleType => true
  | BuiltinFloatType PPC128 => true
  | SugaredType underlying => hasUnmangleablePart underlying
  | MetaTypeType instanceType => hasUnmangleablePart instanceType
  | LValueType objectType => hasUnmangleablePart objectType
  | ArrayType _ baseType => hasUnmangleablePart baseType
  | TupleType fields =>
      existsb (λ field,
        match field with
        | mkTupleTypeElt _ fieldType => hasUnmangleablePart fieldType
        end) fields
  | BoundGenericType _ genericArgs =>
      existsb hasUnmangleablePart genericArgs
  | FunctionType input result _
  | PolymorphicFunctionType _ input result _ =>
      hasUnmangleablePart input || hasUnmangleablePart result
  | _ => false
  end.

(** The step is fatal from every state. *)
Definition alwaysFails {A} (m : Mangle A) : Prop := ∀ s, m s = None.

(** The type of a request for a type. *)
Definition entityType (entity : LinkEntity) : option Ty :=
  match entity with
  | ValueWitnessEntity _ type | ValueWitnessTable type | TypeMangling type
  | TypeMetadata type _ _ | BridgeToBlockConverter type => Some type
  | _ => None
  end.

(** ** Types that are mangled the same everywhere *)

(** Every character has an operator translation. *)
Fixpoint allOperatorChars (s : string) : bool :=
  match s with
  | EmptyString => true
  | String c rest =>
      match mangleOperatorChar c with
      | Some _ => allOperatorChars rest
      | None => false
      end
  end.

(** The identifier is not empty and, if an operator, is made of
    operator characters. *)
Definition identifierMangles (ident : Identifier) : bool :=
  negb (String.eqb (str ident) "")
  && (negb (isOperator ident) || allOperatorChars (str ident)).

(** The declaration sits directly in the module [swift] and its name
    is in the table of standard substitutions. *)
Definition isStandardSubstitution (decl : ValueDecl) : bool :=
  match dyn_cast_Module (getDeclContext decl) with
  | Some parent =>
      isSwiftModule parent
      && existsb (String.eqb (str (getName decl)))
           (map fst standardSubstitutions)
  | None => false
  end.

(** Types built from builtin types and the standard names by sugar,
    metatypes, lvalues, arrays, tuples, generic arguments and
    functions. *)
Fixpoint contextFree (t : Ty) : bool :=
  match t with
  | BuiltinFloatType PPC128 => false
  | BuiltinFloatType _ | BuiltinIntegerType _ | BuiltinRawPointerType
  | BuiltinOpaquePointerType | BuiltinObjectPointerType
  | BuiltinObjCPointerType => true
  | SugaredType underlying => contextFree underlying
  | MetaTypeType instanceType => contextFree instanceType
  | LValueType objectType => contextFree objectType
  | ArrayType _ baseType => contextFree baseType
  | TupleType fields =>
      forallb (λ field,
        match field with
        | mkTupleTypeElt fieldName fieldType =>
            match fieldName with
            | Some n => identifierMangles n
            | None => true
            end && contextFree fieldType
        end) fields
  | OneOfType decl | ProtocolType decl | StructType decl | ClassType decl
  | UnboundGenericType decl => isStandardSubstitution decl
  | BoundGenericType decl genericArgs =>
      isStandardSubstitution decl && forallb contextFree genericArgs
  | FunctionType input result _ => contextFree input && contextFree result
  | _ => false
  end.

(** The step never aborts, and neither reads nor writes the state. *)
Definition stateless {A} (m : Mangle A) : Prop :=
  ∃ a o, ∀ s, m s = Some (a, o, s).

(** A protocol [R] of the module [M], and the state after its first
    occurrence. *)
Definition protocolR : ValueDecl :=
  typeDecl ProtocolDecl "R" (TranslationUnit moduleM) 50.
Definition afterProtocolR : Mangler :=
  {| Substitutions := <[50%N := 1%N]> (<[2%N := 0%N]> ∅);
     Archetypes := ∅;
     ArchetypesDepth := 0 |}.

(** ** Declarations local to a function *)



(** ** Unfolding equations

    Each recursive production equals its body, stated with the closed
    productions. *)

Lemma mangleType_eq type explosion uncurryLevel :
  mangleType type explosion uncurryLevel =
  match type with
  | ErrorType | UnstructuredUnresolvedType | DeducibleGenericParamType
  | TypeVariableType | ModuleType => llvm_unreachable
  | BuiltinFloatType fpKind => mangleBuiltinFloat fpKind
  | BuiltinIntegerType bitWidth =>
      emit "Bi" ;; emit (decimal bitWidth) ;; emit "_"
  | BuiltinRawPointerType => emit "Bp"
  | BuiltinOpaquePointerType => emit "Bu"
  | BuiltinObjectPointerType => emit "Bo"
  | BuiltinObjCPointerType => emit "BO"
  | SugaredType underlying => mangleType underlying explosion uncurryLevel
  | MetaTypeType instanceType =>
      emit "M" ;; mangleType instanceType Minimal 0
  | LValueType objectType =>
      emit "R" ;; mangleType objectType Minimal 0
  | TupleType fields =>
      emit "T" ;;
      forEach fields (λ field,
        match field with
        | mkTupleTypeElt fieldName fieldType =>
            match fieldName with
            | Some n => mangleIdentifier n
            | None => mret tt
            end ;;
            mangleType fieldType explosion 0
        end) ;;
      emit "_"
  | OneOfType decl | ProtocolType decl | StructType decl | ClassType decl
  | UnboundGenericType decl => mangleNominalType decl explosion
  | BoundGenericType decl genericArgs =>
      emit "G" ;;
      mangleNominalType decl explosion ;;
      forEach genericArgs (λ arg, mangleType arg Minimal 0) ;;
      emit "_"
  | PolymorphicFunctionType genericParams _ _ _ =>
      emit "U" ;;
      manglePolymorphicType genericParams type explosion uncurryLevel true
  | ArchetypeType archetype => mangleArchetype archetype
  | FunctionType _ _ _ => mangleFunctionType type explosion uncurryLevel
  | ArrayType size baseType =>
      emit "A" ;; emit (decimal size) ;; mangleType baseType Minimal 0
  | ProtocolCompositionType protocols =>
      assert (negb (length protocols =? 1)%nat) ;;
      emit "P" ;;
      mangleProtocolList_types protocols ;;
      emit "_"
  end.
Proof. destruct type; reflexivity. Qed.

Lemma mangleProtocolType_eq protoTy :
  mangleProtocolType protoTy =
  match protoTy with
  | SugaredType underlying => mangleProtocolType underlying
  | ProtocolType decl => mangleProtocolName decl
  | _ => llvm_unreachable
  end.
Proof. destruct protoTy; reflexivity. Qed.

Lemma mangleDeclContext_eq ctx :
  mangleDeclContext ctx =
  match ctx with
  | BuiltinModule _ => llvm_unreachable
  | ClangModule _ => mret tt
  | TranslationUnit module =>
      if isSwiftModule module then emit "Ss"
      else
        found ← tryMangleSubstitution (moduleAddress module);
        if (found : bool) then mret tt
        else
          match getParent module with
          | Some parent => mangleDeclContext parent
          | None => mret tt
          end ;;
          mangleIdentifier (Name module) ;;
          addSubstitution (moduleAddress module)
  | NominalTypeDeclContext decl => mangleNominalType decl Minimal
  | ExtensionDeclContext extendedCanonicalType =>
      mangleType extendedCanonicalType Minimal 0
  | CapturingExprContext (FuncExpr (Some funcDecl)) =>
      if isGetterOrSetter funcDecl then mangleGetterOrSetterContext funcDecl
      else mangleDeclName funcDecl true
  | CapturingExprContext _ => llvm_unreachable
  | ConstructorDeclContext decl => mangleDeclName decl true
  | DestructorDeclContext decl => mangleDeclName decl false
  | TopLevelCodeDeclContext => mret tt
  end.
Proof.
  destruct ctx as [| |[? ? [?|]]| | |[[?|]|]| | |]; reflexivity.
Qed.

Lemma bindGenericParameters_eq genericParams mangle :
  bindGenericParameters genericParams mangle =
  (enterGenericParamLists genericParams ;;
   forEachIndexed 0 (getAllArchetypes genericParams) (λ index archetype,
     match archetype with
     | mkArchetype archetypeAddr conformsTo =>
         bindArchetype archetypeAddr index ;;
         if negb mangle then mret tt
         else mangleProtocolList conformsTo ;; emit "_"
     end) ;;
   if mangle then emit "_" else mret tt).
Proof. destruct genericParams; reflexivity. Qed.

Lemma mangleContextOf_eq decl :
  mangleContextOf decl =
  if isClassDecl decl && (notNull (getClangDecl decl) || isObjC decl)
  then
    assert (match getClangDecl decl with
            | None => true
            | Some c =>
                match clangKind c with
                | ObjCInterfaceDecl => true
                | _ => false
                end
            end) ;;
    emit "So"
  else mangleDeclContext (getDeclContext decl).
Proof. reflexivity. Qed.

Lemma mangleDeclType_eq decl explosion uncurryLevel :
  mangleDeclType decl explosion uncurryLevel =
  (assert ((ClassifyDecl decl).1 || negb (ClassifyDecl decl).2) ;;
   SaveAndRestore_ArchetypesDepth (
     (if (ClassifyDecl decl).2 then
        match getGenericParamsOfContext decl with
        | Some genericParams => bindGenericParameters genericParams false
        | None => mret tt
        end
      else mret tt) ;;
     if (ClassifyDecl decl).1
     then mangleType (getType decl) explosion uncurryLevel
     else mret tt)).
Proof. reflexivity. Qed.

Lemma mangleDeclName_eq decl includeType :
  mangleDeclName decl includeType =
  (mangleContextOf decl ;;
   mangleIdentifier (getName decl) ;;
   if negb includeType then mret tt else mangleDeclType decl Minimal 0).
Proof. reflexivity. Qed.

Lemma mangleGetterOrSetterContext_eq func :
  mangleGetterOrSetterContext func =
  (assert (isGetterOrSetter func) ;;
   match (match getGetterDecl func with
          | Some D => Some D
          | None => getSetterDecl func
          end) with
   | Some D =>
       assert (match getKind D with
               | VarDecl | SubscriptDecl => true
               | _ => false
               end) ;;
       mangleDeclName D false ;;
       mangleDeclType D Minimal 0 ;;
       if notNull (getGetterDecl func) then emit "g" else emit "s"
   | None => llvm_unreachable
   end).
Proof.
  unfold mangleGetterOrSetterContext, Productions.mangleGetterOrSetterContext,
    getGetterDecl, getSetterDecl.
  destruct (getKind func) as [| | | | | |[?|] [?|]| | | |]; reflexivity.
Qed.

Lemma mangleProtocolName_eq protocol :
  mangleProtocolName protocol =
  (found ← tryMangleSubstitution (getDeclaredType protocol);
   if (found : bool) then mret tt
   else
     mangleDeclName protocol false ;;
     addSubstitution (getDeclaredType protocol)).
Proof. reflexivity. Qed.

Lemma mangleNominalType_eq decl explosion :
  mangleNominalType decl explosion =
  (std ← tryMangleStandardSubstitution decl;
   if (std : bool) then mret tt
   else
     found ← tryMangleSubstitution (getDeclaredType decl);
     if (found : bool) then mret tt
     else
       match getSpecifierForNominalType decl with
       | Some c => emit c
       | None => llvm_unreachable
       end ;;
       mangleDeclName decl false ;;
       addSubstitution (getDeclaredType decl)).
Proof. reflexivity. Qed.

Lemma mangleFunctionType_eq fn explosion uncurryLevel :
  mangleFunctionType fn explosion uncurryLevel =
  match fn with
  | FunctionType input result isBlock
  | PolymorphicFunctionType _ input result isBlock =>
      (if isBlock then emit "b"
       else emit (if (0 <? uncurryLevel)%N then "f" else "F")) ;;
      mangleType input explosion 0 ;;
      mangleType result explosion
        (if (0 <? uncurryLevel)%N then uncurryLevel - 1 else 0)%N
  | _ => llvm_unreachable
  end.
Proof. reflexivity. Qed.

Lemma mangleEntity_eq decl explosion uncurryLevel :
  mangleEntity decl explosion uncurryLevel =
  (mangleDeclName decl false ;;
   mangleDeclType decl explosion uncurryLevel).
Proof. reflexivity. Qed.

#[global] Opaque mangleType mangleProtocolType mangleDeclContext
  bindGenericParameters mangleContextOf mangleDeclType mangleDeclName
  mangleGetterOrSetterContext mangleProtocolName mangleNominalType
  mangleFunctionType mangleEntity.

(** ** Reasoning about steps *)

Lemma bind_Some {A B} (m : Mangle A) (f : A → Mangle B) s b o s' :
  (m ≫= f) s = Some (b, o, s') ↔
  ∃ a o1 s1 o2,
    m s = Some (a, o1, s1) ∧ f a s1 = Some (b, o2, s') ∧ o = o1 ++ o2.
Proof.
  unfold mbind, Mangle_bind. split.
  - destruct (m s) as [[[a o1] s1]|]; [|discriminate].
    destruct (f a s1) as [[[b' o2] s2]|] eqn:Hf; [|discriminate].
    intros [= -> <- ->]. by exists a, o1, s1, o2.
  - intros (a & o1 & s1 & o2 & -> & -> & ->). reflexivity.
Qed.

Lemma bind_run {A B} (m : Mangle A) (f : A → Mangle B) s a o1 s1 :
  m s = Some (a, o1, s1) →
  (m ≫= f) s =
  match f a s1 with
  | Some (b, o2, s2) => Some (b, o1 ++ o2, s2)
  | None => None
  end.
Proof. unfold mbind, Mangle_bind. by intros ->. Qed.

Lemma bind_None {A B} (m : Mangle A) (f : A → Mangle B) s :
  m s = None → (m ≫= f) s = None.
Proof. unfold mbind, Mangle_bind. by intros ->. Qed.

Lemma output_Some {A} (m : Mangle A) s o :
  output m s = Some o ↔ ∃ a s', m s = Some (a, o, s').
Proof.
  unfold output. destruct (m s) as [[[a o'] s']|]; split.
  - intros [= ->]. eauto.
  - by intros (? & ? & [= _ -> _]).
  - discriminate.
  - by intros (? & ? & [=]).
Qed.

Lemma bind_run_silent {A B} (m : Mangle A) (f : A → Mangle B) s a s1 :
  m s = Some (a, "", s1) → (m ≫= f) s = f a s1.
Proof.
  unfold mbind, Mangle_bind. intros ->.
  by destruct (f a s1) as [[[b o2] s2]|].
Qed.

Lemma forEach_cons {A} (x : A) l f :
  forEach (x :: l) f = (f x ;; forEach l f).
Proof. reflexivity. Qed.

Lemma forEachIndexed_cons {A} index (x : A) l f :
  forEachIndexed index (x :: l) f =
  (f index x ;; forEachIndexed (wrap32 (index + 1)) l f).
Proof. reflexivity. Qed.

Lemma append_cons c (a b : string) : String c a ++ b = String c (a ++ b).
Proof. reflexivity. Qed.

Lemma append_nil_l (o : string) : "" ++ o = o.
Proof. reflexivity. Qed.

Lemma append_nil_r (o : string) : o ++ "" = o.
Proof.
  induction o as [|c o IH]; [reflexivity|]. by rewrite append_cons, IH.
Qed.

Lemma append_assoc (a b c : string) : (a ++ b) ++ c = a ++ (b ++ c).
Proof.
  induction a as [|x a IH]; [reflexivity|]. by rewrite !append_cons, IH.
Qed.

Lemma length_append (a b : string) :
  String.length (a ++ b) = (String.length a + String.length b)%nat.
Proof.
  induction a as [|x a IH]; [reflexivity|].
  rewrite append_cons. simpl. by rewrite IH.
Qed.

Lemma list_all_Forall {A} (P : A → Prop) l : list_all A P l → Forall P l.
Proof. induction 1; constructor; assumption. Qed.

(** Steps whose state change stays inside a reflexive and transitive
    relation. *)
Section StepInvariant.
Variable R : Mangler → Mangler → Prop.
Hypothesis R_refl : ∀ s, R s s.
Hypothesis R_trans : ∀ s1 s2 s3, R s1 s2 → R s2 s3 → R s1 s3.

Lemma respects_ret {A} (a : A) : respects R (mret a).
Proof. intros s a' o s' [= _ _ <-]. apply R_refl. Qed.

Lemma respects_emit o : respects R (emit o).
Proof. intros s a' o' s' [= _ _ <-]. apply R_refl. Qed.

Lemma respects_unreachable {A} : respects R (@llvm_unreachable A).
Proof. intros s a o s' [=]. Qed.

Lemma respects_assert b : respects R (assert b).
Proof.
  destruct b; [apply respects_ret | apply respects_unreachable].
Qed.

Lemma respects_getState : respects R getState.
Proof. intros s a' o s' [= _ _ <-]. apply R_refl. Qed.

Lemma respects_bind {A B} (m : Mangle A) (f : A → Mangle B) :
  respects R m → (∀ a, respects R (f a)) → respects R (m ≫= f).
Proof.
  intros Hm Hf s b o s' (a & o1 & s1 & o2 & H1 & H2 & _)%bind_Some.
  eapply R_trans; [eapply Hm | eapply Hf]; eassumption.
Qed.

Lemma respects_forEach {A} (l : list A) f :
  Forall (λ x, respects R (f x)) l → respects R (forEach l f).
Proof.
  induction 1 as [|x l Hx _ IH]; [apply respects_ret|].
  rewrite forEach_cons. apply respects_bind; auto.
Qed.

Lemma respects_forEachIndexed {A} (l : list A) f :
  Forall (λ x, ∀ i, respects R (f i x)) l →
  ∀ index, respects R (forEachIndexed index l f).
Proof.
  induction 1 as [|x l Hx _ IH]; intros index; [apply respects_ret|].
  rewrite forEachIndexed_cons. apply respects_bind; auto.
Qed.

Lemma respects_tryMangleSubstitution ptr :
  respects R (tryMangleSubstitution ptr).
Proof.
  intros s a o s'. unfold tryMangleSubstitution.
  destruct (Substitutions s !! ptr); intros [= _ _ <-]; apply R_refl.
Qed.

Lemma respects_tryMangleStandardSubstitution decl :
  respects R (tryMangleStandardSubstitution decl).
Proof.
  unfold tryMangleStandardSubstitution.
  destruct (dyn_cast_Module _); [|apply respects_ret].
  destruct (negb _); [apply respects_ret|].
  repeat (destruct (String.eqb _ _);
          [apply respects_bind;
           [apply respects_emit | intros; apply respects_ret]|]).
  apply respects_ret.
Qed.

Lemma respects_mangleOperatorChars o : respects R (mangleOperatorChars o).
Proof.
  induction o as [|c o IH]; [apply respects_ret|]. simpl.
  apply respects_bind; [|auto].
  destruct (mangleOperatorChar c);
    [apply respects_emit | apply respects_unreachable].
Qed.

Lemma respects_mangleIdentifier ident : respects R (mangleIdentifier ident).
Proof.
  unfold mangleIdentifier.
  apply respects_bind; [apply respects_assert|intros _].
  destruct (negb (isOperator ident));
    repeat (apply respects_bind; [apply respects_emit|intros _]);
    [apply respects_emit | apply respects_mangleOperatorChars].
Qed.

Lemma respects_mangleArchetype archetype :
  respects R (mangleArchetype archetype).
Proof.
  unfold mangleArchetype.
  apply respects_bind; [apply respects_getState|intros s].
  destruct (Archetypes s !! archetype); [|apply respects_unreachable].
  apply respects_bind; [apply respects_assert|intros _].
  apply respects_bind; [apply respects_emit|intros _].
  apply respects_bind; [|intros _; apply respects_emit].
  destruct (negb _); [|apply respects_ret].
  apply respects_bind; [apply respects_emit|intros _; apply respects_emit].
Qed.

Lemma respects_mangleBuiltinFloat fpKind :
  respects R (mangleBuiltinFloat fpKind).
Proof.
  destruct fpKind; first [apply respects_emit | apply respects_unreachable].
Qed.
End StepInvariant.

(** ** The tables only grow, and the depth is restored *)

Lemma tablesGrow_refl s : tablesGrow s s.
Proof. split; reflexivity. Qed.

Lemma tablesGrow_trans s1 s2 s3 :
  tablesGrow s1 s2 → tablesGrow s2 s3 → tablesGrow s1 s3.
Proof. intros [? ?] [? ?]. split; etrans; eassumption. Qed.

Lemma framed_refl s : framed s s.
Proof. split; [apply tablesGrow_refl | reflexivity]. Qed.

Lemma framed_trans s1 s2 s3 : framed s1 s2 → framed s2 s3 → framed s1 s3.
Proof.
  intros [? ?] [? ?]. split; [by eapply tablesGrow_trans | congruence].
Qed.

Lemma framed_tablesGrow {A} (m : Mangle A) :
  respects framed m → respects tablesGrow m.
Proof. intros H s a o s' Hm. by apply (H s a o s'). Qed.

Lemma framed_addSubstitution ptr : respects framed (addSubstitution ptr).
Proof.
  intros s a o s' [= _ _ <-]. repeat split; simpl; try reflexivity.
  destruct (Substitutions s !! ptr) eqn:E; [reflexivity|].
  by apply insert_subseteq.
Qed.

Lemma framed_bindArchetype archetype index :
  respects framed (bindArchetype archetype index).
Proof.
  intros s a o s'. unfold bindArchetype.
  destruct (Archetypes s !! archetype) eqn:E; [discriminate|].
  intros [= _ _ <-]. repeat split; simpl; try reflexivity.
  by apply insert_subseteq.
Qed.

Lemma tablesGrow_setArchetypesDepth d :
  respects tablesGrow (setArchetypesDepth d).
Proof. intros s a o s' [= _ _ <-]. split; reflexivity. Qed.

Lemma tablesGrow_enterGenericParamLists parent :
  respects tablesGrow (enterGenericParamLists parent).
Proof.
  induction parent as [l outer IH] using GenericParamList_ind. simpl.
  apply respects_bind; [exact tablesGrow_trans| |intros _].
  - apply respects_bind; [exact tablesGrow_trans| |intros s].
    + apply respects_getState, tablesGrow_refl.
    + apply tablesGrow_setArchetypesDepth.
  - destruct IH; [assumption|]. apply respects_ret, tablesGrow_refl.
Qed.

(** [SaveAndRestore] turns a body that only grows the tables into a
    step that also leaves the depth as it found it. *)
Lemma framed_SaveAndRestore body :
  respects tablesGrow body →
  respects framed (SaveAndRestore_ArchetypesDepth body).
Proof.
  intros Hbody s a o s'. unfold SaveAndRestore_ArchetypesDepth.
  intros (s0 & o1 & s1 & o2 & [= <- _ <-] & H & _)%bind_Some.
  apply bind_Some in H as (? & o3 & s2 & o4 & Hb & [= _ _ <-] & _).
  apply Hbody in Hb as [? ?]. repeat split; assumption.
Qed.

Ltac solve_rel :=
  first [ exact framed_refl | exact framed_trans
        | exact tablesGrow_refl | exact tablesGrow_trans ].

Ltac respects_step :=
  lazymatch goal with
  | |- respects _ (mret _) => apply respects_ret; solve_rel
  | |- respects _ (emit _) => apply respects_emit; solve_rel
  | |- respects _ llvm_unreachable => apply respects_unreachable
  | |- respects _ (assert _) => apply respects_assert; solve_rel
  | |- respects _ (mangleIdentifier _) =>
      apply respects_mangleIdentifier; solve_rel
  | |- respects _ (tryMangleSubstitution _) =>
      apply respects_tryMangleSubstitution; solve_rel
  | |- respects _ (tryMangleStandardSubstitution _) =>
      apply respects_tryMangleStandardSubstitution; solve_rel
  | |- respects _ (mangleArchetype _) =>
      apply respects_mangleArchetype; solve_rel
  | |- respects _ (mangleBuiltinFloat _) =>
      apply respects_mangleBuiltinFloat; solve_rel
  | |- respects framed (addSubstitution _) => apply framed_addSubstitution
  | |- respects framed (bindArchetype _ _) => apply framed_bindArchetype
  | |- respects tablesGrow (addSubstitution _) =>
      apply framed_tablesGrow, framed_addSubstitution
  | |- respects tablesGrow (bindArchetype _ _) =>
      apply framed_tablesGrow, framed_bindArchetype
  | |- respects tablesGrow (enterGenericParamLists _) =>
      apply tablesGrow_enterGenericParamLists
  | |- respects framed (SaveAndRestore_ArchetypesDepth _) =>
      apply framed_SaveAndRestore
  | |- respects _ (_ ≫= _) => apply respects_bind; [solve_rel| |intros ?]
  | |- respects _ (if ?b then _ else _) => destruct b
  end.

Lemma framed_mangleContextOf d :
  contextFramed (getDeclContext d) → respects framed (mangleContextOf d).
Proof.
  intros H. rewrite mangleContextOf_eq. repeat respects_step. exact H.
Qed.

Lemma framed_mangleDeclType d :
  typeFramed (getType d) →
  (∀ g, getGenericParamsOfContext d = Some g → genericsGrow g) →
  ∀ e u, respects framed (mangleDeclType d e u).
Proof.
  intros [Ht _] Hg e u. rewrite mangleDeclType_eq. repeat respects_step.
  - destruct (getGenericParamsOfContext d) as [g|]; [|respects_step].
    by apply Hg.
  - apply framed_tablesGrow, Ht.
Qed.

Lemma framed_mangleDeclName d :
  respects framed (mangleContextOf d) →
  (∀ e u, respects framed (mangleDeclType d e u)) →
  ∀ includeType, respects framed (mangleDeclName d includeType).
Proof.
  intros Hc Ht includeType. rewrite mangleDeclName_eq.
  repeat respects_step; auto.
Qed.

Lemma framed_mangleGetterOrSetterContext func :
  kindFramed (getKind func) →
  respects framed (mangleGetterOrSetterContext func).
Proof.
  intros Hk. rewrite mangleGetterOrSetterContext_eq.
  respects_step; [respects_step|].
  assert (∀ D, match getGetterDecl func with
               | Some D => Some D
               | None => getSetterDecl func
               end = Some D → declFramed D) as HD.
  { unfold getGetterDecl, getSetterDecl.
    destruct (getKind func) as [| | | | | |g s| | | |]; try discriminate.
    destruct Hk as [Hg Hs]. destruct g; [intros D [= <-]|]; auto. }
  destruct (match getGetterDecl func with
            | Some D => Some D
            | None => getSetterDecl func
            end) as [D|]; [|respects_step].
  destruct (HD D eq_refl) as (_ & Ht & Hn & _).
  repeat respects_step; auto.
Qed.

Lemma framed_mangleProtocolName d :
  (∀ includeType, respects framed (mangleDeclName d includeType)) →
  respects framed (mangleProtocolName d).
Proof.
  intros Hn. rewrite mangleProtocolName_eq. repeat respects_step; auto.
Qed.

Lemma framed_mangleNominalType d :
  (∀ includeType, respects framed (mangleDeclName d includeType)) →
  ∀ e, respects framed (mangleNominalType d e).
Proof.
  intros Hn e. rewrite mangleNominalType_eq. repeat respects_step; auto.
  destruct (getSpecifierForNominalType d); respects_step.
Qed.

Lemma framed_mangleEntity d :
  (∀ includeType, respects framed (mangleDeclName d includeType)) →
  (∀ e u, respects framed (mangleDeclType d e u)) →
  ∀ e u, respects framed (mangleEntity d e u).
Proof.
  intros Hn Ht e u. rewrite mangleEntity_eq. repeat respects_step; auto.
Qed.

Lemma framed_mangleFunctionType input result fn e u :
  typeFramed input → typeFramed result →
  match fn with
  | FunctionType i r _ | PolymorphicFunctionType _ i r _ =>
      i = input ∧ r = result
  | _ => True
  end →
  respects framed (mangleFunctionType fn e u).
Proof.
  intros [Hi _] [Hr _] Hfn. rewrite mangleFunctionType_eq.
  destruct fn; try respects_step; destruct Hfn as [-> ->];
    repeat respects_step; auto.
Qed.

(** Every production leaves the depth as it found it and only adds to
    the two tables; [bindGenericParameters], which enters the scopes,
    only adds to the tables. *)
Lemma mangler_framed :
  (∀ t, typeFramed t)
  ∧ (∀ elt, match elt with mkTupleTypeElt _ t => typeFramed t end)
  ∧ (∀ d, declFramed d)
  ∧ (∀ k, kindFramed k)
  ∧ (∀ ctx, contextFramed ctx)
  ∧ (∀ expr, exprFramed expr)
  ∧ (∀ m, moduleFramed m)
  ∧ (∀ g, genericsGrow g)
  ∧ (∀ a, archetypeFramed a).
Proof.
  apply AST_mutind.
  all: try (split; [intros e u; rewrite mangleType_eq
                   | rewrite mangleProtocolType_eq];
            repeat respects_step; fail).
  - (* SugaredType *)
    intros t [Ht Hp]. split; [intros e u; rewrite mangleType_eq
                             | rewrite mangleProtocolType_eq]; auto.
  - (* MetaTypeType *)
    intros t [Ht _]. split; [intros e u; rewrite mangleType_eq
                            | rewrite mangleProtocolType_eq];
      repeat respects_step; auto.
  - (* LValueType *)
    intros t [Ht _]. split; [intros e u; rewrite mangleType_eq
                            | rewrite mangleProtocolType_eq];
      repeat respects_step; auto.
  - (* TupleType *)
    intros fields Hf%list_all_Forall.
    split; [intros e u; rewrite mangleType_eq
           | rewrite mangleProtocolType_eq]; repeat respects_step.
    apply respects_forEach; [solve_rel..|].
    eapply Forall_impl; [exact Hf|]. intros [n t] [Ht _]; simpl.
    respects_step; [|auto]. destruct n; respects_step.
  - (* OneOfType *)
    intros d (_ & _ & _ & _ & _ & Hn & _).
    split; [intros e u; rewrite mangleType_eq
           | rewrite mangleProtocolType_eq]; repeat respects_step; auto.
  - (* ProtocolType *)
    intros d (_ & _ & _ & _ & Hp & Hn & _).
    split; [intros e u; rewrite mangleType_eq
           | rewrite mangleProtocolType_eq]; repeat respects_step; auto.
  - (* StructType *)
    intros d (_ & _ & _ & _ & _ & Hn & _).
    split; [intros e u; rewrite mangleType_eq
           | rewrite mangleProtocolType_eq]; repeat respects_step; auto.
  - (* ClassType *)
    intros d (_ & _ & _ & _ & _ & Hn & _).
    split; [intros e u; rewrite mangleType_eq
           | rewrite mangleProtocolType_eq]; repeat respects_step; auto.
  - (* UnboundGenericType *)
    intros d (_ & _ & _ & _ & _ & Hn & _).
    split; [intros e u; rewrite mangleType_eq
           | rewrite mangleProtocolType_eq]; repeat respects_step; auto.
  - (* BoundGenericType *)
    intros d (_ & _ & _ & _ & _ & Hn & _) args Ha%list_all_Forall.
    split; [intros e u; rewrite mangleType_eq
           | rewrite mangleProtocolType_eq]; repeat respects_step; auto.
    apply respects_forEach; [solve_rel..|].
    eapply Forall_impl; [exact Ha|]. by intros t [Ht _].
  - (* PolymorphicFunctionType *)
    intros g Hg input Hi result Hr isBlock.
    split; [intros e u; rewrite mangleType_eq
           | rewrite mangleProtocolType_eq]; repeat respects_step.
    unfold manglePolymorphicType. repeat respects_step; [apply Hg|].
    simpl. apply framed_tablesGrow.
    by apply (framed_mangleFunctionType input result).
  - (* FunctionType *)
    intros input Hi result Hr isBlock.
    split; [intros e u; rewrite mangleType_eq
           | rewrite mangleProtocolType_eq]; repeat respects_step.
    by apply (framed_mangleFunctionType input result).
  - (* ArrayType *)
    intros n t [Ht _]. split; [intros e u; rewrite mangleType_eq
                              | rewrite mangleProtocolType_eq];
      repeat respects_step; auto.
  - (* ProtocolCompositionType *)
    intros protocols Hp%list_all_Forall.
    split; [intros e u; rewrite mangleType_eq
           | rewrite mangleProtocolType_eq]; repeat respects_step.
    apply respects_forEach; [solve_rel..|].
    eapply Forall_impl; [exact Hp|]. by intros t [_ Ht].
  - (* mkTupleTypeElt *)
    auto.
  - (* mkValueDecl *)
    intros k Hk n t Ht ctx Hctx clang objc asm a g Hg.
    set (d := mkValueDecl k n t ctx clang objc asm a g).
    assert (respects framed (mangleContextOf d)) as Hc
      by (by apply framed_mangleContextOf).
    assert (∀ e u, respects framed (mangleDeclType d e u)) as Hdt.
    { apply framed_mangleDeclType; [exact Ht|].
      intros g' [= ->]. by inversion Hg. }
    assert (∀ i, respects framed (mangleDeclName d i)) as Hn
      by (by apply framed_mangleDeclName).
    unfold declFramed. split_and!; auto.
    + by apply framed_mangleGetterOrSetterContext.
    + by apply framed_mangleProtocolName.
    + by apply framed_mangleNominalType.
    + by apply framed_mangleEntity.
  - (* TypeAliasDecl .. DestructorDecl *) exact I.
  - exact I.
  - exact I.
  - exact I.
  - exact I.
  - exact I.
  - intros g Hg s Hs. split; intros D ->; [by inversion Hg|by inversion Hs].
  - intros; exact I.
  - exact I.
  - exact I.
  - exact I.
  - (* BuiltinModule *)
    intros m _. unfold contextFramed. rewrite mangleDeclContext_eq.
    respects_step.
  - (* ClangModule *)
    intros m _. unfold contextFramed. rewrite mangleDeclContext_eq.
    respects_step.
  - (* TranslationUnit *)
    intros m Hm. unfold contextFramed. rewrite mangleDeclContext_eq.
    repeat respects_step.
    unfold moduleFramed in Hm.
    destruct (getParent m); [exact Hm|respects_step].
  - (* NominalTypeDeclContext *)
    intros d (_ & _ & _ & _ & _ & Hn & _).
    unfold contextFramed. rewrite mangleDeclContext_eq. auto.
  - (* ExtensionDeclContext *)
    intros t [Ht _]. unfold contextFramed. rewrite mangleDeclContext_eq.
    auto.
  - (* CapturingExprContext *)
    intros [[d|]|] He; unfold contextFramed; rewrite mangleDeclContext_eq;
      [|respects_step..].
    destruct He as (_ & _ & Hn & Hg & _).
    destruct (isGetterOrSetter d); auto.
  - (* ConstructorDeclContext *)
    intros d (_ & _ & Hn & _).
    unfold contextFramed. rewrite mangleDeclContext_eq. auto.
  - (* DestructorDeclContext *)
    intros d (_ & _ & Hn & _).
    unfold contextFramed. rewrite mangleDeclContext_eq. auto.
  - (* TopLevelCodeDeclContext *)
    unfold contextFramed. rewrite mangleDeclContext_eq. respects_step.
  - (* FuncExpr *)
    intros [d|] Hd; simpl; [by inversion Hd|exact I].
  - (* OtherCapturingExpr *) exact I.
  - (* mkModule *)
    intros a n [p|] Hp; unfold moduleFramed; simpl; [by inversion Hp|exact I].
  - (* mkGenericParamList *)
    intros l Hl%list_all_Forall outer _ mangle.
    rewrite bindGenericParameters_eq. repeat respects_step.
    apply respects_forEachIndexed; [solve_rel..|].
    eapply Forall_impl; [exact Hl|]. intros [addr protos] Hp i.
    repeat respects_step.
    unfold mangleProtocolList.
    apply respects_forEach; [solve_rel..|].
    eapply Forall_impl; [exact Hp|].
    intros d (_ & _ & _ & _ & Hpn & _). by apply framed_tablesGrow.
  - (* mkArchetype *)
    intros a protos Hp%list_all_Forall. exact Hp.
Qed.

(** ** Steps that behave alike *)

Lemma sameStep_refl {A} (m : Mangle A) : sameStep m m.
Proof. by intros s. Qed.

Lemma sameStep_bind {A B} (m m' : Mangle A) (f f' : A → Mangle B) :
  sameStep m m' → (∀ a, sameStep (f a) (f' a)) →
  sameStep (m ≫= f) (m' ≫= f').
Proof.
  intros Hm Hf s. unfold mbind, Mangle_bind. rewrite Hm.
  destruct (m' s) as [[[a o1] s1]|]; [|reflexivity]. by rewrite Hf.
Qed.

Lemma sameStep_forEach {A} (l : list A) f f' :
  Forall (λ x, sameStep (f x) (f' x)) l →
  sameStep (forEach l f) (forEach l f').
Proof.
  induction 1 as [|x l Hx _ IH]; [apply sameStep_refl|].
  rewrite !forEach_cons. by apply sameStep_bind.
Qed.

Lemma sameStep_SaveAndRestore body body' :
  sameStep body body' →
  sameStep (SaveAndRestore_ArchetypesDepth body)
           (SaveAndRestore_ArchetypesDepth body').
Proof.
  intros H. unfold SaveAndRestore_ArchetypesDepth.
  apply sameStep_bind; [apply sameStep_refl|intros s].
  apply sameStep_bind; [exact H|intros _; apply sameStep_refl].
Qed.

Lemma mangleFunctionType_explosion fn e e' u :
  match fn with
  | FunctionType i r _ | PolymorphicFunctionType _ i r _ =>
      explosionIrrelevant i ∧ explosionIrrelevant r
  | _ => True
  end →
  sameStep (mangleFunctionType fn e u) (mangleFunctionType fn e' u).
Proof.
  intros H. rewrite !mangleFunctionType_eq.
  destruct fn; try apply sameStep_refl; destruct H as [Hi Hr];
    (apply sameStep_bind; [apply sameStep_refl|intros _];
     apply sameStep_bind; [apply Hi|intros _; apply Hr]).
Qed.

Lemma mangleType_explosion t : explosionIrrelevant t.
Proof.
  induction t using Ty_mutind with
    (P0 := λ elt, match elt with
                  | mkTupleTypeElt _ t => explosionIrrelevant t
                  end)
    (P1 := λ _, True) (P2 := λ _, True) (P3 := λ _, True)
    (P4 := λ _, True) (P5 := λ _, True) (P6 := λ _, True)
    (P7 := λ _, True);
    try exact I; try assumption;
    intros e e' u; rewrite !mangleType_eq; try apply sameStep_refl.
  - (* TupleType *)
    apply sameStep_bind; [apply sameStep_refl|intros _].
    apply sameStep_bind; [|intros _; apply sameStep_refl].
    apply sameStep_forEach.
    match goal with H : list_all _ _ _ |- _ =>
      apply list_all_Forall in H; eapply Forall_impl; [exact H|]
    end.
    intros [n t] Ht; simpl.
    apply sameStep_bind; [apply sameStep_refl|intros _; apply Ht].
  - (* PolymorphicFunctionType *)
    apply sameStep_bind; [apply sameStep_refl|intros _].
    unfold manglePolymorphicType. apply sameStep_SaveAndRestore.
    apply sameStep_bind; [apply sameStep_refl|intros _]. simpl.
    by apply mangleFunctionType_explosion.
  - (* FunctionType *)
    by apply mangleFunctionType_explosion.
Qed.



(** ** Entities that are not mangled *)

(** C10.  Every anonymous function is written as the seven bytes
    [closure]: no [_T] prefix, no local-linkage marker, and the same
    symbol for every anonymous function. *)
Theorem anonymous_function_closure fn e u l fn' e' u' l' :
  mangle (AnonymousFunction fn e u l) = Some "closure"
  ∧ mangle (AnonymousFunction fn e u l)
    = mangle (AnonymousFunction fn' e' u' l').
Proof. split; reflexivity. Qed.




(** ** Function types *)

Lemma emit_Some o s a o' s' :
  emit o s = Some (a, o', s') ↔ a = tt ∧ o' = o ∧ s' = s.
Proof.
  unfold emit. split; [by intros [= <- <- <-]|].
  by intros (-> & -> & ->).
Qed.


(** The steps of [mangleFunctionType], after the choice of marker. *)
Lemma function_steps_Some marker (mType mResult : Mangle unit) s o s' :
  (emit marker ;; mType ;; mResult) s = Some (tt, o, s') ↔
  ∃ o1 s1 o2,
    mType s = Some (tt, o1, s1)
    ∧ mResult s1 = Some (tt, o2, s')
    ∧ o = marker ++ o1 ++ o2.
Proof.
  split.
  - intros ([] & o0 & s0 & o' & [_ [-> ->]]%emit_Some & H & ->)%bind_Some.
    apply bind_Some in H as ([] & o1 & s1 & o2 & H1 & H2 & ->).
    by exists o1, s1, o2.
  - intros (o1 & s1 & o2 & H1 & H2 & ->).
    erewrite bind_run by reflexivity.
    erewrite bind_run by exact H1. by rewrite H2.
Qed.

Lemma function_marker_eq (isBlock : bool) (u : N) :
  (if isBlock then emit "b"
   else emit (if (0 <? u)%N then "f" else "F"))
  = emit (if isBlock then "b" else if (u =? 0)%N then "F" else "f")
  ∧ (if (0 <? u)%N then u - 1 else 0)%N
    = (if (u =? 0)%N then 0 else u - 1)%N.
Proof.
  assert ((0 <? u)%N = negb (u =? 0)%N) as ->.
  { destruct (N.eqb_spec u 0) as [->|]; [reflexivity|].
    apply N.ltb_lt. lia. }
  by destruct isBlock, (u =? 0)%N.
Qed.

(** C6.  A function type is written as its marker, its argument type
    at level 0 and its result type at the level decremented by one:
    the marker is [b] for a block whatever the level, else [F] at
    level 0 and [f] above.  A polymorphic function type is written
    the same way after its generic parameters. *)
Theorem function_type_markers input result isBlock e u s o s' :
  (mangleType (FunctionType input result isBlock) e u s = Some (tt, o, s') ↔
   ∃ o1 s1 o2,
     mangleType input e 0 s = Some (tt, o1, s1)
     ∧ mangleType result e (if (u =? 0)%N then 0 else u - 1)%N s1
       = Some (tt, o2, s')
     ∧ o = (if isBlock then "b" else if (u =? 0)%N then "F" else "f")
           ++ o1 ++ o2)
  ∧ ∀ genericParams : GenericParamList,
      (mangleFunctionType
         (PolymorphicFunctionType genericParams input result isBlock) e u s
         = Some (tt, o, s') ↔
       ∃ o1 s1 o2,
         mangleType input e 0 s = Some (tt, o1, s1)
         ∧ mangleType result e (if (u =? 0)%N then 0 else u - 1)%N s1
           = Some (tt, o2, s')
         ∧ o = (if isBlock then "b" else if (u =? 0)%N then "F" else "f")
               ++ o1 ++ o2).
Proof.
  destruct (function_marker_eq isBlock u) as [Hmarker Hlevel].
  split; [|intros genericParams];
    rewrite ?(mangleType_eq (FunctionType _ _ _)), mangleFunctionType_eq,
      Hmarker, Hlevel;
    apply function_steps_Some.
Qed.

(** ** Aliases *)

Lemma castTo_PolymorphicFunctionType g input result isBlock :
  castTo_AnyFunctionType (PolymorphicFunctionType g input result isBlock)
  = Some (PolymorphicFunctionType g input result isBlock).
Proof. reflexivity. Qed.

Lemma sameStep_forEach_map {A} (g : A → A) (l : list A) f f' :
  Forall (λ x, sameStep (f x) (f' (g x))) l →
  sameStep (forEach l f) (forEach (map g l) f').
Proof.
  induction 1 as [|x l Hx _ IH]; [apply sameStep_refl|].
  simpl map. rewrite !forEach_cons. by apply sameStep_bind.
Qed.

Ltac sameStep_auto :=
  repeat first
    [ apply sameStep_refl
    | match goal with
      | H : ∀ e u, sameStep (mangleType ?t e u) _
        |- sameStep (mangleType ?t _ _) _ => apply H
      | H : sameStep (mangleProtocolType ?t) _
        |- sameStep (mangleProtocolType ?t) _ => exact H
      end
    | lazymatch goal with
      | |- sameStep (SaveAndRestore_ArchetypesDepth _) _ =>
          apply sameStep_SaveAndRestore
      | |- sameStep (_ ≫= _) (_ ≫= _) => apply sameStep_bind; [|intros ?]
      end ].

(** Sugar is transparent at any depth of a type. *)
Lemma resolveAliases_sameStep t :
  (∀ e u, sameStep (mangleType t e u) (mangleType (resolveAliases t) e u))
  ∧ sameStep (mangleProtocolType t) (mangleProtocolType (resolveAliases t)).
Proof.
  induction t using Ty_mutind with
    (P0 := λ elt, match elt with
                  | mkTupleTypeElt _ t =>
                      (∀ e u, sameStep (mangleType t e u)
                                (mangleType (resolveAliases t) e u))
                      ∧ sameStep (mangleProtocolType t)
                          (mangleProtocolType (resolveAliases t))
                  end)
    (P1 := λ _, True) (P2 := λ _, True) (P3 := λ _, True)
    (P4 := λ _, True) (P5 := λ _, True) (P6 := λ _, True)
    (P7 := λ _, True);
    try exact I; try assumption;
    repeat match goal with H : _ ∧ _ |- _ => destruct H end;
    (split; [intros e u|]); try apply sameStep_refl;
    simpl resolveAliases;
    rewrite ?(mangleType_eq (MetaTypeType _)),
      ?(mangleType_eq (LValueType _)), ?(mangleType_eq (TupleType _)),
      ?(mangleType_eq (BoundGenericType _ _)),
      ?(mangleType_eq (PolymorphicFunctionType _ _ _ _)),
      ?(mangleType_eq (FunctionType _ _ _)),
      ?(mangleType_eq (ArrayType _ _)),
      ?(mangleType_eq (ProtocolCompositionType _)),
      ?(mangleType_eq (SugaredType _)),
      ?(mangleProtocolType_eq (SugaredType _));
    unfold manglePolymorphicType, mangleProtocolList_types;
    rewrite ?castTo_PolymorphicFunctionType, ?mangleFunctionType_eq,
      ?length_map;
    sameStep_auto.
  - (* TupleType *)
    apply sameStep_forEach_map.
    match goal with H : list_all _ _ _ |- _ =>
      apply list_all_Forall in H; eapply Forall_impl; [exact H|]
    end.
    intros [n t] [Ht _]. sameStep_auto.
  - (* BoundGenericType *)
    apply sameStep_forEach_map.
    match goal with H : list_all _ _ _ |- _ =>
      apply list_all_Forall in H; eapply Forall_impl; [exact H|]
    end.
    intros t [Ht _]. apply Ht.
  - (* ProtocolCompositionType *)
    apply sameStep_forEach_map.
    match goal with H : list_all _ _ _ |- _ =>
      apply list_all_Forall in H; eapply Forall_impl; [exact H|]
    end.
    intros t [_ Ht]. apply Ht.
Qed.

(** C7.  A type behind any chain of sugar is mangled as its desugared
    type, and sugar inside a type (a tuple field, a generic argument,
    an argument or result type) is as transparent: the type and its
    fully resolved form are written alike. *)
Theorem alias_transparency t e u :
  mangleType t e u = mangleType (getDesugaredType t) e u
  ∧ sameStep (mangleType t e u) (mangleType (resolveAliases t) e u).
Proof.
  split; [|apply resolveAliases_sameStep].
  induction t using Ty_ind; try reflexivity.
  rewrite mangleType_eq. exact IHt.
Qed.

(** ** Archetypes *)

Lemma Index_out_compact v :
  Index_out v = compactIndex_spec v
  ∧ Index_out 0 = "_"
  ∧ (v ≠ 0%N → Index_out v = decimal (v - 1) ++ "_").
Proof.
  split_and!; try reflexivity.
  intros Hv%N.eqb_neq. unfold Index_out. by rewrite Hv.
Qed.

(** C4, as the code has it.  A bound archetype whose recorded depth
    does not exceed the current depth is written from the depth delta
    and the index only: [Q] and the index for delta 0, and for a
    delta above 0 [Qd], then delta - 1 and the index, both in the
    compact index grammar. *)
Theorem archetype_token archetype e u s info :
  Archetypes s !! archetype = Some info →
  (Depth info ≤ ArchetypesDepth s)%N →
  mangleType (ArchetypeType archetype) e u s =
    Some (tt, archetypeToken (ArchetypesDepth s - Depth info) (Index info), s)
  ∧ archetypeToken 0 (Index info) = "Q" ++ compactIndex_spec (Index info)
  ∧ (∀ delta, delta ≠ 0%N →
       archetypeToken delta (Index info) =
       "Qd" ++ compactIndex_spec (delta - 1)
            ++ compactIndex_spec (Index info)).
Proof.
  intros Hinfo Hdepth%N.leb_le. split_and!.
  - rewrite mangleType_eq. unfold mangleArchetype.
    erewrite bind_run by reflexivity. rewrite Hinfo, Hdepth.
    unfold archetypeToken.
    destruct (ArchetypesDepth s - Depth info =? 0)%N; reflexivity.
  - reflexivity.
  - intros delta Hd%N.eqb_neq. unfold archetypeToken. rewrite Hd.
    reflexivity.
Qed.

Lemma archetype_token_witness :
  mangleType (ArchetypeType 100) Minimal 0 insideInnerScope =
    Some (tt, "Qd__", insideInnerScope).
Proof.
  refine (proj1 (archetype_token 100 Minimal 0 insideInnerScope
                   {| Depth := 1; Index := 0 |} _ _)).
  - reflexivity.
  - simpl. lia.
Defined.

(** C4 as stated fails at delta 1: the delta is not itself written in
    the compact index grammar (that would be [Qd0_]), the code writes
    delta - 1 in it.  [insideInnerScope] is the state in which the
    inner function type of [nestedPoly] is mangled. *)
Lemma archetype_delta_counterexample :
  (bindGenericParameters outerGenerics true ;;
   bindGenericParameters innerGenerics true) newMangler
    = Some (tt, "____", insideInnerScope)
  ∧ output (mangleType (ArchetypeType 100) Minimal 0) insideInnerScope
    = Some "Qd__"
  ∧ archetypeToken_spec (2 - 1) 0 = "Qd0__"
  ∧ mangle (TypeMangling nestedPoly) = Some "U__FQ_U__FQd__Q_".
Proof. split_and!; vm_compute; reflexivity. Qed.

(** ** Generic scopes *)

Lemma framed_mangleFunctionType_any fn e u :
  respects framed (mangleFunctionType fn e u).
Proof.
  destruct (mangler_framed) as (Ht & _).
  destruct fn; try (rewrite mangleFunctionType_eq; respects_step; fail).
  - by apply (framed_mangleFunctionType fn1 fn2).
  - by apply (framed_mangleFunctionType fn1 fn2).
Qed.





(** ** Component types *)

Lemma mangleType_uncurry t e u u' :
  isAnyFunctionType t = false → mangleType t e u = mangleType t e u'.
Proof.
  unfold isAnyFunctionType.
  induction t using Ty_ind; intros Hfn; try discriminate;
    rewrite (mangleType_eq _ e u), (mangleType_eq _ e u');
    try reflexivity.
  by apply IHt.
Qed.

(** C5.  The component types of a type (metatype instance, lvalue
    object, array element, tuple fields, generic arguments, function
    argument) are written as at minimal explosion and level 0,
    whatever explosion kind and uncurry level the caller passes; only
    the result of a function type sees the level, decremented.  A type
    that is not a function type is written alike at every explosion
    kind and level. *)
Theorem substructure_canonical (e e' : ExplosionKind) (u u' : N) :
  (∀ t, sameStep (mangleType (MetaTypeType t) e u)
          (emit "M" ;; mangleType t Minimal 0))
  ∧ (∀ t, sameStep (mangleType (LValueType t) e u)
            (emit "R" ;; mangleType t Minimal 0))
  ∧ (∀ n t, sameStep (mangleType (ArrayType n t) e u)
              (emit "A" ;; emit (decimal n) ;; mangleType t Minimal 0))
  ∧ (∀ fields,
       sameStep (mangleType (TupleType fields) e u)
         (emit "T" ;;
          forEach fields (λ field,
            match field with
            | mkTupleTypeElt fieldName fieldType =>
                match fieldName with
                | Some n => mangleIdentifier n
                | None => mret tt
                end ;;
                mangleType fieldType Minimal 0
            end) ;;
          emit "_"))
  ∧ (∀ decl genericArgs,
       sameStep (mangleType (BoundGenericType decl genericArgs) e u)
         (emit "G" ;;
          mangleNominalType decl Minimal ;;
          forEach genericArgs (λ arg, mangleType arg Minimal 0) ;;
          emit "_"))
  ∧ (∀ input result isBlock,
       sameStep (mangleType (FunctionType input result isBlock) e u)
         (emit (if isBlock then "b" else if (u =? 0)%N then "F" else "f") ;;
          mangleType input Minimal 0 ;;
          mangleType result Minimal (u - 1)))
  ∧ (∀ t, isAnyFunctionType t = false →
          sameStep (mangleType t e u) (mangleType t e' u')).
Proof.
  split_and!.
  - intros t. rewrite mangleType_eq. apply sameStep_refl.
  - intros t. rewrite mangleType_eq. apply sameStep_refl.
  - intros n t. rewrite mangleType_eq. apply sameStep_refl.
  - intros fields. rewrite mangleType_eq.
    apply sameStep_bind; [apply sameStep_refl|intros _].
    apply sameStep_bind; [|intros _; apply sameStep_refl].
    apply sameStep_forEach, Forall_forall. intros [n t] _.
    apply sameStep_bind; [apply sameStep_refl|intros _].
    apply mangleType_explosion.
  - intros decl genericArgs. rewrite mangleType_eq. apply sameStep_refl.
  - intros input result isBlock.
    rewrite mangleType_eq, mangleFunctionType_eq.
    destruct (N.eqb_spec u 0) as [->|Hu].
    + destruct isBlock;
        (apply sameStep_bind; [apply sameStep_refl|intros _];
         apply sameStep_bind; [|intros _]; apply mangleType_explosion).
    + assert ((0 <? u)%N = true) as -> by (apply N.ltb_lt; lia).
      destruct isBlock;
        (apply sameStep_bind; [apply sameStep_refl|intros _];
         apply sameStep_bind; [|intros _]; apply mangleType_explosion).
  - intros t Ht s. rewrite (mangleType_uncurry t e u u' Ht).
    apply mangleType_explosion.
Qed.

Lemma substructure_canonical_witness :
  sameStep (mangleType aliasedTuple Maximal 2)
           (mangleType aliasedTuple Minimal 0).
Proof.
  apply (substructure_canonical Maximal Minimal 2 0). reflexivity.
Defined.

(** ** The first byte of a type mangling *)

Lemma startsLikeAType_app o1 o2 :
  startsLikeAType o1 = true → startsLikeAType (o1 ++ o2) = true.
Proof. destruct o1; [discriminate|]. by rewrite append_cons. Qed.

Lemma writesTypeStart_unreachable {A} : writesTypeStart (@llvm_unreachable A).
Proof. intros s a o s' [=]. Qed.

Lemma writesTypeStart_emit o :
  startsLikeAType o = true → writesTypeStart (emit o).
Proof. by intros Ho s a o' s' [= _ <- _]. Qed.

Lemma writesTypeStart_bind {A B} (m : Mangle A) (f : A → Mangle B) :
  writesTypeStart m → writesTypeStart (m ≫= f).
Proof.
  intros Hm s b o s' (a & o1 & s1 & o2 & H1 & _ & ->)%bind_Some.
  eapply startsLikeAType_app, Hm, H1.
Qed.

Lemma writesTypeStart_silent {A B} (m : Mangle A) (f : A → Mangle B) :
  (∀ s a o s', m s = Some (a, o, s') → o = "") →
  (∀ a, writesTypeStart (f a)) → writesTypeStart (m ≫= f).
Proof.
  intros Hm Hf s b o s' (a & o1 & s1 & o2 & H1 & H2 & ->)%bind_Some.
  apply Hm in H1 as ->. eapply Hf, H2.
Qed.

Lemma assert_silent b s a o s' : assert b s = Some (a, o, s') → o = "".
Proof. destruct b; [by intros [= _ <- _]|discriminate]. Qed.

Lemma getState_silent s a o s' : getState s = Some (a, o, s') → o = "".
Proof. by intros [= _ <- _]. Qed.

(** [tryMangleStandardSubstitution] does not read the state: it
    either writes one of the fixed tokens or declines silently. *)
Lemma tryMangleStandardSubstitution_cases decl s b o s' :
  tryMangleStandardSubstitution decl s = Some (b, o, s') →
  s' = s
  ∧ (∀ s2, tryMangleStandardSubstitution decl s2 = Some (b, o, s2))
  ∧ ((b = false ∧ o = "") ∨ (b = true ∧ startsLikeAType o = true)).
Proof.
  unfold tryMangleStandardSubstitution.
  destruct (dyn_cast_Module _); [|intros [= <- <- <-]; auto].
  destruct (negb _); [intros [= <- <- <-]; auto|].
  repeat (destruct (String.eqb _ _);
          [intros [= <- <- <-]; split_and!; auto|]).
  intros [= <- <- <-]; auto.
Qed.

Lemma tryMangleStandardSubstitution_total decl s :
  ∃ b o, tryMangleStandardSubstitution decl s = Some (b, o, s).
Proof.
  unfold tryMangleStandardSubstitution.
  destruct (dyn_cast_Module _); [|by eexists _, _].
  destruct (negb _); [by eexists _, _|].
  repeat (destruct (String.eqb _ _); [by eexists _, _|]).
  by eexists _, _.
Qed.

Lemma tryMangleSubstitution_cases ptr s b o s' :
  tryMangleSubstitution ptr s = Some (b, o, s') →
  s' = s
  ∧ ((b = false ∧ o = "" ∧ Substitutions s !! ptr = None)
     ∨ (∃ index, Substitutions s !! ptr = Some index ∧ b = true
          ∧ o = "S" ++ (if (index =? 0)%N then "" else decimal (index - 1))
                    ++ "_")).
Proof.
  unfold tryMangleSubstitution.
  destruct (Substitutions s !! ptr) as [index|];
    intros [= <- <- <-]; split; eauto.
Qed.

Lemma writesTypeStart_mangleNominalType decl e :
  writesTypeStart (mangleNominalType decl e).
Proof.
  intros s a o s'. rewrite mangleNominalType_eq.
  intros (std & o1 & s1 & o2 & Hstd & H & ->)%bind_Some.
  apply tryMangleStandardSubstitution_cases in Hstd
    as (-> & _ & [[-> ->]|[-> Ho]]); [|by apply startsLikeAType_app].
  apply bind_Some in H as (found & o3 & s3 & o4 & Hsub & H & ->).
  apply tryMangleSubstitution_cases in Hsub
    as (-> & [(-> & -> & _)|(index & _ & -> & ->)]); [|reflexivity].
  apply bind_Some in H as ([] & o5 & s5 & o6 & Hspec & _ & ->).
  unfold getSpecifierForNominalType in Hspec.
  destruct (getKind decl); try discriminate;
    injection Hspec as <- <-; reflexivity.
Qed.

(** C2, as the code has it.  Whatever [mangleType] writes for a type
    is not empty and starts with none of [0-9_]; so does the output
    of a type-only request. *)
Theorem type_mangling_start t e u s o s' :
  mangleType t e u s = Some (tt, o, s')
  ∨ mangle (TypeMangling t) = Some o →
  startsLikeAType o = true ∧ startsWithDigitOrUnderscore o = false.
Proof.
  enough (∀ e u, writesTypeStart (mangleType t e u)) as H.
  { assert (startsLikeAType o = true →
            startsLikeAType o = true
            ∧ startsWithDigitOrUnderscore o = false) as Hboth.
    { intros Ho. split; [exact Ho|].
      destruct o; [discriminate|]. simpl in *.
      by destruct (isDigit a || Ascii.eqb a "_"). }
    unfold mangle.
    intros [Hm|([] & s2 & Hm)%output_Some]; apply Hboth.
    - exact (H e u s tt o s' Hm).
    - exact (H Minimal 0%N newMangler tt o s2 Hm). }
  clear. intros e u.
  induction t using Ty_ind; rewrite mangleType_eq;
    try apply writesTypeStart_unreachable;
    try apply writesTypeStart_mangleNominalType;
    try (apply writesTypeStart_emit; reflexivity);
    try (apply writesTypeStart_bind, writesTypeStart_emit; reflexivity).
  - (* BuiltinFloatType *)
    destruct fpKind; first [ apply writesTypeStart_emit; reflexivity
                            | apply writesTypeStart_unreachable ].
  - (* SugaredType *) exact IHt.
  - (* ArchetypeType *)
    unfold mangleArchetype.
    apply writesTypeStart_silent; [apply getState_silent|intros st].
    destruct (Archetypes st !! archetype);
      [|apply writesTypeStart_unreachable].
    apply writesTypeStart_silent; [apply assert_silent|intros _].
    apply writesTypeStart_bind, writesTypeStart_emit; reflexivity.
  - (* FunctionType *)
    rewrite mangleFunctionType_eq. apply writesTypeStart_bind.
    destruct isBlock, (0 <? u)%N; apply writesTypeStart_emit; reflexivity.
  - (* ProtocolCompositionType *)
    apply writesTypeStart_silent; [apply assert_silent|intros _].
    apply writesTypeStart_bind, writesTypeStart_emit; reflexivity.
Qed.

Lemma type_mangling_start_witness :
  startsLikeAType "TSi1xA4Si_" = true
  ∧ startsWithDigitOrUnderscore "TSi1xA4Si_" = false.
Proof.
  apply (type_mangling_start
           (TupleType [mkTupleTypeElt None (StructType Int64Decl);
                       mkTupleTypeElt (Some (plain "x"))
                         (ArrayType 4 MyInt)])
           Minimal 0 newMangler "TSi1xA4Si_" newMangler).
  left. vm_compute. reflexivity.
Defined.

(** C2 as stated fails: the output of [LinkEntity::mangle] starts with
    the underscore of the [_T] prefix. *)
Lemma entity_output_counterexample :
  mangle (ValueWitnessTable BuiltinRawPointerType) = Some "_TWVBp"
  ∧ startsWithDigitOrUnderscore "_TWVBp" = true.
Proof. split; vm_compute; reflexivity. Qed.

(** The first spelling of a nominal type ends like its name: a type
    mangling can end with a digit. *)
Lemma type_mangling_end_example :
  mangle (TypeMangling (StructType Int32Decl)) = Some "VSs5Int32"
  ∧ endsWithDigit "VSs5Int32" = true.
Proof. split; vm_compute; reflexivity. Qed.

(** ** Substitutions *)

Lemma addSubstitution_Some ptr s a o s' :
  addSubstitution ptr s = Some (a, o, s') →
  o = ""
  ∧ ∃ index, Substitutions s' !! ptr = Some index
     ∧ (Substitutions s !! ptr = None →
        index = N.of_nat (size (Substitutions s))).
Proof.
  intros [= _ <- <-]. split; [reflexivity|]. simpl.
  destruct (Substitutions s !! ptr) as [index|] eqn:E.
  - exists index. split; [exact E|discriminate].
  - eexists. split; [apply lookup_insert_eq|reflexivity].
Qed.

(** A recorded identity is written as its back-reference. *)
Lemma mangleOccurrence_recorded x s index :
  hasFixedToken x = false →
  Substitutions s !! identityOf x = Some index →
  mangleOccurrence x s = Some (tt, backReference index, s).
Proof.
  intros Hfixed Hsub.
  assert (tryMangleSubstitution (identityOf x) s
          = Some (true, backReference index, s)) as Htry
    by (unfold tryMangleSubstitution; by rewrite Hsub).
  destruct x as [module|decl|protocol]; simpl in *.
  - rewrite mangleDeclContext_eq, Hfixed.
    erewrite bind_run by exact Htry. cbv beta iota.
    unfold mret, Mangle_ret. by rewrite append_nil_r.
  - rewrite mangleNominalType_eq.
    destruct (tryMangleStandardSubstitution_total decl newMangler)
      as (std & o & Hstd).
    rewrite Hstd in Hfixed. subst std.
    apply tryMangleStandardSubstitution_cases in Hstd
      as (_ & Hstd & [[_ ->]|[[=] _]]).
    rewrite (bind_run_silent _ _ _ _ _ (Hstd s)). cbv beta iota.
    erewrite bind_run by exact Htry. cbv beta iota.
    unfold mret, Mangle_ret. by rewrite append_nil_r.
  - rewrite mangleProtocolName_eq.
    erewrite bind_run by exact Htry. cbv beta iota.
    unfold mret, Mangle_ret. by rewrite append_nil_r.
Qed.

Lemma bind_assoc {A B C} (m : Mangle A) (f : A → Mangle B)
    (g : B → Mangle C) s :
  ((m ≫= f) ≫= g) s = (m ≫= λ a, f a ≫= g) s.
Proof.
  unfold mbind, Mangle_bind.
  destruct (m s) as [[[a o1] s1]|]; [|reflexivity].
  destruct (f a s1) as [[[b o2] s2]|]; [|reflexivity].
  destruct (g b s2) as [[[c o3] s3]|]; [|reflexivity].
  by rewrite append_assoc.
Qed.

(** An identity that is not yet recorded is spelled in full, and
    recorded after that. *)
Lemma mangleOccurrence_first x s :
  hasFixedToken x = false →
  Substitutions s !! identityOf x = None →
  mangleOccurrence x s = (fullSpelling x ;; addSubstitution (identityOf x)) s.
Proof.
  intros Hfixed Hsub.
  assert (tryMangleSubstitution (identityOf x) s = Some (false, "", s))
    as Htry by (unfold tryMangleSubstitution; by rewrite Hsub).
  destruct x as [module|decl|protocol]; simpl in *.
  - rewrite mangleDeclContext_eq, Hfixed.
    rewrite (bind_run_silent _ _ _ _ _ Htry). cbv beta iota.
    by rewrite bind_assoc.
  - rewrite mangleNominalType_eq.
    destruct (tryMangleStandardSubstitution_total decl newMangler)
      as (std & o & Hstd).
    rewrite Hstd in Hfixed. subst std.
    apply tryMangleStandardSubstitution_cases in Hstd
      as (_ & Hstd & [[_ ->]|[[=] _]]).
    rewrite (bind_run_silent _ _ _ _ _ (Hstd s)). cbv beta iota.
    rewrite (bind_run_silent _ _ _ _ _ Htry). cbv beta iota.
    by rewrite bind_assoc.
  - rewrite mangleProtocolName_eq.
    by rewrite (bind_run_silent _ _ _ _ _ Htry).
Qed.

(** C3, as the code has it.  The first occurrence of a module, a
    nominal type or a protocol that has no fixed token is written as
    its full spelling and recorded once the spelling is complete,
    under the next index, the size of the table; in every later state
    of the request (the table only grows, as it does across any type
    mangling), another occurrence is written as exactly [S], the
    index less one in decimal (nothing for index 0) and [_]. *)
Theorem substitution_backreference x s0 o1 s1 :
  hasFixedToken x = false →
  Substitutions s0 !! identityOf x = None →
  mangleOccurrence x s0 = Some (tt, o1, s1) →
  ∃ s' index,
    fullSpelling x s0 = Some (tt, o1, s')
    ∧ Substitutions s1 !! identityOf x = Some index
    ∧ (Substitutions s' !! identityOf x = None →
       index = N.of_nat (size (Substitutions s')))
    ∧ (∀ s2,
         Substitutions s1 ⊆ Substitutions s2 →
         mangleOccurrence x s2 =
           Some (tt,
                 "S" ++ (if (index =? 0)%N then "" else decimal (index - 1))
                     ++ "_",
                 s2))
    ∧ (∀ t e u o2 s2,
         mangleType t e u s1 = Some (tt, o2, s2) →
         Substitutions s1 ⊆ Substitutions s2).
Proof.
  intros Hfixed Hnone H.
  rewrite mangleOccurrence_first in H by assumption.
  apply bind_Some in H as ([] & spelling & s' & o4 & Hspell & Hadd & ->).
  apply addSubstitution_Some in Hadd as (-> & index & Hidx & Hsize).
  exists s', index. split_and!; try done.
  - by rewrite append_nil_r.
  - intros s2 Hsub.
    apply mangleOccurrence_recorded; [assumption|].
    eapply lookup_weaken; eassumption.
  - intros t e u o2 s2 Ht.
    destruct mangler_framed as (Hframed & _).
    by apply (proj1 (Hframed t)) in Ht as [[Hsub _] _].
Qed.

Lemma substitution_backreference_witness :
  ∃ s' index,
    fullSpelling (SubstNominalType structA) newMangler
      = Some (tt, "V1M1A", s')
    ∧ Substitutions afterStructA !! identityOf (SubstNominalType structA)
      = Some index
    ∧ (Substitutions s' !! identityOf (SubstNominalType structA) = None →
       index = N.of_nat (size (Substitutions s')))
    ∧ (∀ s2,
         Substitutions afterStructA ⊆ Substitutions s2 →
         mangleOccurrence (SubstNominalType structA) s2 =
           Some (tt,
                 "S" ++ (if (index =? 0)%N then "" else decimal (index - 1))
                     ++ "_",
                 s2))
    ∧ (∀ t e u o2 s2,
         mangleType t e u afterStructA = Some (tt, o2, s2) →
         Substitutions afterStructA ⊆ Substitutions s2).
Proof.
  apply (substitution_backreference (SubstNominalType structA) newMangler
           "V1M1A" afterStructA); vm_compute; reflexivity.
Defined.

(** C3 as stated fails in its last part: a back-reference is not
    always shorter than the spelling.  The module [M] is spelled [1M]
    and referred to as [S_], of equal length; the C struct [P],
    recorded second, is spelled [V1P] and referred to as [S0_]. *)
Lemma backreference_length_counterexample :
  mangleDeclContext (TranslationUnit moduleM) newMangler
    = Some (tt, "1M", afterModuleM)
  ∧ mangleDeclContext (TranslationUnit moduleM) afterModuleM
    = Some (tt, "S_", afterModuleM)
  ∧ ¬ (String.length "S_" < String.length "1M")%nat
  ∧ output (mangleType (StructType structP) Minimal 0) afterModuleM
    = Some "V1P"
  ∧ output (mangleType (StructType structP) Minimal 0 ;;
            mangleType (StructType structP) Minimal 0) afterModuleM
    = Some "V1PS0_"
  ∧ ¬ (String.length "S0_" < String.length "V1P")%nat.
Proof. split_and!; try (vm_compute; reflexivity); simpl; lia. Qed.

(** ** What separates two requests *)

Lemma sameStep_output {A} (m m' : Mangle A) s :
  sameStep m m' → output m s = output m' s.
Proof. intros H. unfold output. by rewrite H. Qed.













(** ** Scenarios *)

Example scenario_operator :
  output (mangleIdentifier {| str := "+-"; isOperator := true |}) newMangler
  = Some "op2ps".
Proof. reflexivity. Qed.

Example scenario_struct_in_base_module :
  mangle (TypeMangling (StructType PairDecl)) = Some "VSs4Pair"
  ∧ mangle (TypeMangling
              (TupleType [mkTupleTypeElt None (StructType PairDecl);
                          mkTupleTypeElt None (StructType PairDecl)]))
    = Some "TVSs4PairS__".
Proof. split; vm_compute; reflexivity. Qed.

Example scenario_standard_scalar :
  mangle (TypeMangling (StructType Int64Decl)) = Some "Si".
Proof. vm_compute. reflexivity. Qed.

Example scenario_array :
  mangle (TypeMangling (ArrayType 4 (StructType Float32Decl)))
  = Some "A4Sf".
Proof. vm_compute. reflexivity. Qed.

Example scenario_uncurry :
  mangle (Function fooDecl Minimal 0 false) = Some "_T1M3fooFSiFSiSi"
  ∧ mangle (Function fooDecl Minimal 1 false) = Some "_T1M3foofSiFSiSi"
  ∧ mangle (Function fooDecl Minimal 2 false) = Some "_T1M3foofSifSiSi".
Proof. split_and!; vm_compute; reflexivity. Qed.

Example scenario_asm_name :
  mangle (Function fooImplDecl Minimal 0 false) = Some "foo_impl".
Proof. reflexivity. Qed.

(** ** Numbers and identifiers can be read back *)

Lemma decimal_allDigits n : allDigits (decimal n) = true.
Proof.
  unfold decimal. induction (N.to_uint n) as [|d IH|d IH|d IH|d IH|d IH
    |d IH|d IH|d IH|d IH|d IH]; simpl; try reflexivity; exact IH.
Qed.

Lemma decimal_inj n m : decimal n = decimal m → n = m.
Proof.
  unfold decimal. intros H.
  apply DecimalN.Unsigned.to_uint_inj.
  assert (Some (N.to_uint n) = Some (N.to_uint m)) as [= ->]; [|reflexivity].
  by rewrite <- !NilEmpty.usu, H.
Qed.

Lemma decimal_nonempty n : decimal n ≠ "".
Proof.
  unfold decimal. destruct n as [|p]; [discriminate|]. simpl.
  pose proof (DecimalPos.Unsigned.to_uint_nonnil p) as Hp.
  by destruct (Pos.to_uint p).
Qed.

(** A run of digits ends where the first other character stands. *)
Lemma digits_split a b x y :
  allDigits a = true → allDigits b = true →
  startsWithDigit x = false → startsWithDigit y = false →
  x ≠ "" → y ≠ "" →
  a ++ x = b ++ y → a = b ∧ x = y.
Proof.
  revert b. induction a as [|c a IH]; intros [|d b] Ha Hb Hx Hy Hxe Hye.
  - by rewrite !append_nil_l.
  - rewrite append_nil_l, append_cons. intros ->.
    simpl in *. apply andb_prop in Hb as [Hd _]. congruence.
  - rewrite append_nil_l, append_cons. intros <-.
    simpl in *. apply andb_prop in Ha as [Hc _]. congruence.
  - rewrite !append_cons. intros [= -> H].
    simpl in Ha, Hb.
    apply andb_prop in Ha as [_ Ha]. apply andb_prop in Hb as [_ Hb].
    destruct (IH b Ha Hb Hx Hy Hxe Hye H) as [-> ->]. done.
Qed.

Lemma append_length_inv a b x y :
  String.length a = String.length b → a ++ x = b ++ y → a = b ∧ x = y.
Proof.
  revert b. induction a as [|c a IH]; intros [|d b] Hlen; try discriminate.
  - by rewrite !append_nil_l.
  - rewrite !append_cons. intros [= -> H].
    injection Hlen as Hlen. destruct (IH b Hlen H) as [-> ->]. done.
Qed.

Lemma mangleOperatorChar_inj a b c :
  mangleOperatorChar a = Some c → mangleOperatorChar b = Some c → a = b.
Proof.
  unfold mangleOperatorChar. intros Ha Hb.
  repeat match type of Ha with
         | context [Ascii.eqb ?x ?y] =>
             destruct (Ascii.eqb_spec x y) as [->|_]
         end;
    try discriminate;
    repeat match type of Hb with
           | context [Ascii.eqb ?x ?y] =>
               destruct (Ascii.eqb_spec x y) as [->|_]
           end;
    congruence.
Qed.

Lemma mangleOperatorChar_letter a c :
  mangleOperatorChar a = Some c → isDigit c = false.
Proof.
  unfold mangleOperatorChar.
  repeat (destruct (Ascii.eqb a _); [by intros [= <-]|]). discriminate.
Qed.

Lemma mangleOperatorChars_Some str s o s' :
  mangleOperatorChars str s = Some (tt, o, s') →
  s' = s
  ∧ String.length o = String.length str
  ∧ (str ≠ "" → startsWithDigit o = false ∧ o ≠ "").
Proof.
  revert s o s'. induction str as [|c str IH]; intros s o s'.
  - intros [= <- <-]. done.
  - simpl mangleOperatorChars.
    intros ([] & o1 & s1 & o2 & H1 & H2 & ->)%bind_Some.
    destruct (mangleOperatorChar c) as [m|] eqn:Hm; [|discriminate].
    apply emit_Some in H1 as (_ & -> & ->).
    apply IH in H2 as (-> & Hlen & _).
    rewrite append_cons, append_nil_l.
    split_and!; [done|by simpl; rewrite Hlen|].
    intros _. simpl.
    split; [by eapply mangleOperatorChar_letter|discriminate].
Qed.

Lemma mangleOperatorChars_inj str str' s s1 o s' s1' :
  mangleOperatorChars str s = Some (tt, o, s') →
  mangleOperatorChars str' s1 = Some (tt, o, s1') →
  str = str'.
Proof.
  revert str' s s1 o s' s1'.
  induction str as [|c str IH]; intros [|c' str'] s s1 o s' s1'.
  - done.
  - intros [= <- _] H. apply mangleOperatorChars_Some in H as (_ & H & _).
    discriminate.
  - intros H [= <- _]. apply mangleOperatorChars_Some in H as (_ & H & _).
    discriminate.
  - simpl mangleOperatorChars.
    intros ([] & o1 & s2 & o2 & H1 & H2 & ->)%bind_Some
           ([] & o1' & s2' & o2' & H1' & H2' & Heq)%bind_Some.
    destruct (mangleOperatorChar c) as [m|] eqn:Hm; [|discriminate].
    destruct (mangleOperatorChar c') as [m'|] eqn:Hm'; [|discriminate].
    apply emit_Some in H1 as (_ & -> & ->), H1' as (_ & -> & ->).
    rewrite !append_cons, !append_nil_l in Heq. injection Heq as -> ->.
    f_equal; [by eapply mangleOperatorChar_inj|by eapply IH].
Qed.

Lemma startsWithDigit_app x y :
  x ≠ "" → startsWithDigit (x ++ y) = startsWithDigit x.
Proof. destruct x; [done|]. by rewrite append_cons. Qed.

Lemma append_nonempty x y : x ≠ "" → x ++ y ≠ "".
Proof. destruct x; [done|]. by rewrite append_cons. Qed.

Lemma decimal_startsWithDigit n : startsWithDigit (decimal n) = true.
Proof.
  pose proof (decimal_allDigits n) as Hd.
  pose proof (decimal_nonempty n) as Hn.
  destruct (decimal n); [done|]. simpl in *.
  by apply andb_prop in Hd as [-> _].
Qed.

Lemma strSize_inj a b : strSize a = strSize b → String.length a = String.length b.
Proof. unfold strSize. lia. Qed.

(** What [mangleIdentifier] writes, when it does not abort. *)
Lemma mangleIdentifier_Some ident s o s' :
  mangleIdentifier ident s = Some (tt, o, s') →
  s' = s
  ∧ str ident ≠ ""
  ∧ if isOperator ident
    then ∃ t, mangleOperatorChars (str ident) s = Some (tt, t, s)
              ∧ o = "op" ++ decimal (strSize (str ident)) ++ t
    else o = decimal (strSize (str ident)) ++ str ident.
Proof.
  unfold mangleIdentifier.
  intros ([] & o1 & s1 & o2 & Ha & H & ->)%bind_Some.
  destruct (String.eqb_spec (str ident) "") as [|Hne]; [discriminate|].
  injection Ha as <- <-. rewrite append_nil_l.
  destruct (isOperator ident); simpl in H.
  - apply bind_Some in H as ([] & o3 & s3 & o4 & [_ [-> ->]]%emit_Some & H & ->).
    apply bind_Some in H as ([] & o5 & s5 & o6 & [_ [-> ->]]%emit_Some & H & ->).
    pose proof (mangleOperatorChars_Some _ _ _ _ H) as (-> & _).
    split_and!; [done..|]. by exists o6.
  - apply bind_Some in H as ([] & o3 & s3 & o4 & [_ [-> ->]]%emit_Some & H & ->).
    apply emit_Some in H as (_ & -> & ->). done.
Qed.

(** X1.  An identifier can be read back from what [mangleIdentifier]
    writes, whatever follows it: two identifiers whose spellings do
    not start with a digit and whose manglings, each followed by more
    output, give the same bytes are the same identifier, followed by
    the same output. *)
Theorem identifier_decodable ident ident' s s1 o o' s' s1' rest rest' :
  startsWithDigit (str ident) = false →
  startsWithDigit (str ident') = false →
  mangleIdentifier ident s = Some (tt, o, s') →
  mangleIdentifier ident' s1 = Some (tt, o', s1') →
  o ++ rest = o' ++ rest' →
  ident = ident' ∧ rest = rest'.
Proof.
  intros Hd Hd' (-> & Hne & H)%mangleIdentifier_Some
    (-> & Hne' & H')%mangleIdentifier_Some Heq.
  destruct ident as [x op], ident' as [x' op']; simpl in *.
  destruct op, op'.
  - destruct H as (t & Ht & ->), H' as (t' & Ht' & ->).
    rewrite !append_assoc, !append_cons, !append_nil_l in Heq.
    injection Heq as Heq.
    pose proof (mangleOperatorChars_Some _ _ _ _ Ht) as (_ & Hlen & Hs).
    pose proof (mangleOperatorChars_Some _ _ _ _ Ht') as (_ & Hlen' & Hs').
    destruct (Hs Hne) as [Hsd Hse], (Hs' Hne') as [Hsd' Hse'].
    apply digits_split in Heq as [Hn Heq];
      try apply decimal_allDigits;
      try (by rewrite startsWithDigit_app);
      try (by apply append_nonempty).
    apply decimal_inj, strSize_inj in Hn.
    apply append_length_inv in Heq as [-> ->]; [|congruence].
    split; [|done]. f_equal. by eapply mangleOperatorChars_inj.
  - destruct H as (t & _ & ->). subst. exfalso.
    pose proof (decimal_startsWithDigit (strSize x')) as Hdig.
    rewrite !append_assoc in Heq.
    destruct (decimal (strSize x')); [done|].
    rewrite !append_cons in Heq. injection Heq as <- _. done.
  - destruct H' as (t & _ & ->). subst. exfalso.
    pose proof (decimal_startsWithDigit (strSize x)) as Hdig.
    rewrite !append_assoc in Heq.
    destruct (decimal (strSize x)); [done|].
    rewrite !append_cons in Heq. injection Heq as -> _. done.
  - subst. rewrite !append_assoc in Heq.
    apply digits_split in Heq as [Hn Heq];
      try apply decimal_allDigits;
      try (by rewrite startsWithDigit_app);
      try (by apply append_nonempty).
    apply decimal_inj, strSize_inj in Hn.
    apply append_length_inv in Heq as [-> ->]; done.
Qed.

Lemma identifier_decodable_witness :
  plain "Pair" = plain "Pair" ∧ "Bp" = "Bp".
Proof.
  apply (identifier_decodable (plain "Pair") (plain "Pair")
           newMangler newMangler "4Pair" "4Pair" newMangler newMangler);
    reflexivity.
Defined.

(** ** Indices can be read back *)

Lemma indexDigits_allDigits v : allDigits (indexDigits v) = true.
Proof.
  unfold indexDigits. destruct (v =? 0)%N; [reflexivity|].
  apply decimal_allDigits.
Qed.

Lemma indexDigits_inj v w : indexDigits v = indexDigits w → v = w.
Proof.
  unfold indexDigits.
  destruct (N.eqb_spec v 0) as [->|Hv], (N.eqb_spec w 0) as [->|Hw].
  - done.
  - intros H. symmetry in H. by apply decimal_nonempty in H.
  - intros H. by apply decimal_nonempty in H.
  - intros H%decimal_inj. lia.
Qed.

(** The compact index grammar is a prefix code. *)
Lemma indexDigits_split v w x y :
  indexDigits v ++ "_" ++ x = indexDigits w ++ "_" ++ y → v = w ∧ x = y.
Proof.
  intros H. apply digits_split in H as [Hd H];
    try apply indexDigits_allDigits; try done.
  apply indexDigits_inj in Hd. by injection H.
Qed.

Lemma Index_out_split v w x y :
  Index_out v ++ x = Index_out w ++ y → v = w ∧ x = y.
Proof.
  unfold Index_out. fold (indexDigits v) (indexDigits w).
  rewrite !append_assoc. apply indexDigits_split.
Qed.

Lemma Index_out_start v rest :
  startsWithDigitOrUnderscore (Index_out v ++ rest) = true.
Proof.
  unfold Index_out. destruct (N.eqb_spec v 0) as [->|Hv]; [reflexivity|].
  pose proof (decimal_startsWithDigit (v - 1)) as Hd.
  destruct (decimal (v - 1)); [done|].
  rewrite !append_cons. simpl in *. by rewrite Hd.
Qed.

(** X2.  A back-reference can be read back, whatever follows it: two
    successful [tryMangleSubstitution]s that write the same bytes, each
    followed by more output, found the same index, and are followed by
    the same output. *)
Theorem backreference_decodable ptr ptr' s s1 o o' s' s1' rest rest' :
  tryMangleSubstitution ptr s = Some (true, o, s') →
  tryMangleSubstitution ptr' s1 = Some (true, o', s1') →
  o ++ rest = o' ++ rest' →
  Substitutions s !! ptr = Substitutions s1 !! ptr'
  ∧ is_Some (Substitutions s !! ptr)
  ∧ rest = rest'.
Proof.
  intros (-> & [(? & _)|(i & Hi & _ & ->)])%tryMangleSubstitution_cases
    (-> & [(? & _)|(j & Hj & _ & ->)])%tryMangleSubstitution_cases;
    try discriminate.
  fold (indexDigits i) (indexDigits j).
  rewrite !append_cons, !append_nil_l, !append_assoc. intros [= H].
  apply indexDigits_split in H as [-> ->].
  rewrite Hi, Hj. eauto.
Qed.

Lemma backreference_decodable_witness :
  Substitutions afterStructA !! 20%N = Substitutions afterStructA !! 20%N
  ∧ is_Some (Substitutions afterStructA !! 20%N)
  ∧ "1x" = "1x".
Proof.
  apply (backreference_decodable 20 20 afterStructA afterStructA
           "S0_" "S0_" afterStructA afterStructA); reflexivity.
Defined.

(** What the archetype case writes, when it does not abort. *)
Lemma mangleArchetype_Some archetype s o s' :
  mangleArchetype archetype s = Some (tt, o, s') →
  s' = s
  ∧ ∃ info,
      Archetypes s !! archetype = Some info
      ∧ (Depth info ≤ ArchetypesDepth s)%N
      ∧ o = archetypeToken (ArchetypesDepth s - Depth info) (Index info).
Proof.
  unfold mangleArchetype. erewrite bind_run by reflexivity.
  destruct (Archetypes s !! archetype) as [info|]; [|discriminate].
  destruct (N.leb_spec (Depth info) (ArchetypesDepth s)) as [Hle|];
    [|discriminate].
  intros H.
  assert (Some (tt, archetypeToken (ArchetypesDepth s - Depth info)
                      (Index info), s) = Some (tt, o, s')) as [= <- <-].
  { rewrite <- H. unfold archetypeToken.
    destruct (ArchetypesDepth s - Depth info =? 0)%N; reflexivity. }
  eauto.
Qed.

(** X3.  An archetype token can be read back, whatever follows it: two
    archetype references that write the same bytes, each followed by
    more output, have the same depth delta and the same index, and
    are followed by the same output. *)
Theorem archetype_decodable a a' e e' u u' s s1 o o' s' s1' info info'
    rest rest' :
  Archetypes s !! a = Some info →
  Archetypes s1 !! a' = Some info' →
  mangleType (ArchetypeType a) e u s = Some (tt, o, s') →
  mangleType (ArchetypeType a') e' u' s1 = Some (tt, o', s1') →
  o ++ rest = o' ++ rest' →
  (ArchetypesDepth s - Depth info = ArchetypesDepth s1 - Depth info')%N
  ∧ Index info = Index info'
  ∧ rest = rest'.
Proof.
  intros Hi Hi'. rewrite !mangleType_eq.
  intros (_ & i & Hi2 & _ & ->)%mangleArchetype_Some
         (_ & i' & Hi2' & _ & ->)%mangleArchetype_Some.
  rewrite Hi in Hi2. rewrite Hi' in Hi2'.
  injection Hi2 as <-. injection Hi2' as <-.
  unfold archetypeToken.
  destruct (N.eqb_spec (ArchetypesDepth s - Depth info) 0) as [->|Hd],
    (N.eqb_spec (ArchetypesDepth s1 - Depth info') 0) as [->|Hd'];
    repeat first [rewrite append_cons | rewrite append_nil_l
                 | rewrite append_assoc]; intros [= H].
  - by apply Index_out_split in H as [-> ->].
  - pose proof (Index_out_start (Index info) rest) as Hs.
    rewrite H in Hs. discriminate.
  - pose proof (Index_out_start (Index info') rest') as Hs.
    rewrite <- H in Hs. discriminate.
  - apply Index_out_split in H as [Hdelta H].
    apply Index_out_split in H as [-> ->].
    split_and!; [lia|done..].
Qed.

Lemma archetype_decodable_witness :
  (ArchetypesDepth insideInnerScope - 1 = ArchetypesDepth insideInnerScope - 1)%N
  ∧ 0%N = 0%N
  ∧ "Q_" = "Q_".
Proof.
  apply (archetype_decodable 100 100 Minimal Minimal 0 0 insideInnerScope
           insideInnerScope "Qd__" "Qd__" insideInnerScope insideInnerScope
           {| Depth := 1; Index := 0 |} {| Depth := 1; Index := 0 |});
    reflexivity.
Defined.

(** ** Standard substitutions and builtin types *)

Lemma tryMangleStandardSubstitution_hit decl s o s' :
  tryMangleStandardSubstitution decl s = Some (true, o, s') →
  s' = s
  ∧ (∃ parent, dyn_cast_Module (getDeclContext decl) = Some parent
       ∧ isSwiftModule parent = true)
  ∧ In (str (getName decl), o) standardSubstitutions.
Proof.
  unfold tryMangleStandardSubstitution, standardSubstitutions.
  destruct (dyn_cast_Module _) as [parent|]; [|discriminate].
  destruct (isSwiftModule parent) eqn:Hswift; [|discriminate].
  change (negb true) with false. cbv iota.
  repeat match goal with
         | |- context [String.eqb ?x ?y] =>
             destruct (String.eqb_spec x y) as [Hname|_];
             [rewrite Hname; intros [= <- <-]; split_and!; eauto;
              simpl; tauto|]
         end.
  discriminate.
Qed.

(** X4.  A standard substitution can be read back, whatever follows
    it: two declarations that [tryMangleStandardSubstitution] abbreviates
    to the same bytes, each followed by more output, have the same name
    and both sit directly in the module [swift]; the outputs that follow
    are the same; the tables are not touched. *)
Theorem standard_substitution_decodable decl decl' s s1 o o' s' s1'
    rest rest' :
  tryMangleStandardSubstitution decl s = Some (true, o, s') →
  tryMangleStandardSubstitution decl' s1 = Some (true, o', s1') →
  o ++ rest = o' ++ rest' →
  str (getName decl) = str (getName decl')
  ∧ rest = rest'
  ∧ s' = s ∧ s1' = s1.
Proof.
  intros (-> & _ & Hin)%tryMangleStandardSubstitution_hit
         (-> & _ & Hin')%tryMangleStandardSubstitution_hit.
  unfold standardSubstitutions in *. simpl in Hin, Hin'.
  intros Heq.
  repeat (destruct Hin as [[= Hn <-]|Hin]; [|]); try done;
    repeat (destruct Hin' as [[= Hn' <-]|Hin']; [|]); try done;
    repeat first [rewrite append_cons in Heq | rewrite append_nil_l in Heq];
    try discriminate; injection Heq as ->; split_and!; congruence.
Qed.

Lemma standard_substitution_decodable_witness :
  str (getName Int64Decl) = str (getName Int64Decl)
  ∧ "_" = "_"
  ∧ newMangler = newMangler ∧ afterStructA = afterStructA.
Proof.
  apply (standard_substitution_decodable Int64Decl Int64Decl newMangler
           afterStructA "Si" "Si" newMangler afterStructA); reflexivity.
Defined.

(** X5.  A standard substitution is never mistaken for a back-reference
    or for the context tokens [Ss] and [So]: what
    [tryMangleStandardSubstitution] writes, followed by anything, differs
    from every back-reference followed by anything, and from [Ss] and
    [So] followed by anything. *)
Theorem standard_substitution_distinct decl s o s' index rest rest' :
  tryMangleStandardSubstitution decl s = Some (true, o, s') →
  o ++ rest ≠ backReference index ++ rest'
  ∧ o ++ rest ≠ "Ss" ++ rest'
  ∧ o ++ rest ≠ "So" ++ rest'.
Proof.
  intros (_ & _ & Hin)%tryMangleStandardSubstitution_hit.
  unfold standardSubstitutions in Hin. simpl in Hin.
  change (backReference index) with ("S" ++ Index_out index).
  split_and!; intros Heq;
    repeat (destruct Hin as [[= _ <-]|Hin]; [|]); try done;
    repeat first [rewrite append_cons in Heq | rewrite append_nil_l in Heq
                 | rewrite append_assoc in Heq];
    try discriminate;
    injection Heq as Heq;
    pose proof (Index_out_start index rest') as Hs;
    rewrite <- Heq in Hs; discriminate.
Qed.

Lemma standard_substitution_distinct_witness :
  "Si" ++ "_" ≠ backReference 0 ++ "i_"
  ∧ "Si" ++ "_" ≠ "Ss" ++ "i_"
  ∧ "Si" ++ "_" ≠ "So" ++ "i_".
Proof.
  apply (standard_substitution_distinct Int64Decl newMangler "Si"
           newMangler 0 "_" "i_"); reflexivity.
Defined.

(** What the builtin cases write. *)
Lemma mangleType_builtin t e u s o s' :
  isBuiltinType t = true →
  mangleType t e u s = Some (tt, o, s') →
  s' = s
  ∧ match t with
    | BuiltinFloatType IEEE16 => o = "Bf16_"
    | BuiltinFloatType IEEE32 => o = "Bf32_"
    | BuiltinFloatType IEEE64 => o = "Bf64_"
    | BuiltinFloatType IEEE80 => o = "Bf80_"
    | BuiltinFloatType IEEE128 => o = "Bf128_"
    | BuiltinIntegerType w => o = "Bi" ++ decimal w ++ "_"
    | BuiltinRawPointerType => o = "Bp"
    | BuiltinOpaquePointerType => o = "Bu"
    | BuiltinObjectPointerType => o = "Bo"
    | BuiltinObjCPointerType => o = "BO"
    | _ => False
    end.
Proof.
  destruct t as [| | | | |k|w| | | | | | | | | | | | | | | | | | |];
    try discriminate; [destruct k; try discriminate|..];
    intros _; rewrite mangleType_eq; intros [= <- <-]; split;
    reflexivity.
Qed.

(** X6.  A builtin type can be read back, whatever follows it: two
    builtin types whose manglings, each followed by more output, give the
    same bytes are the same type, and are followed by the same output.
    Mangling a builtin type does not touch the tables. *)
Theorem builtin_type_decodable t t' e e' u u' s s1 o o' s' s1' rest rest' :
  isBuiltinType t = true →
  isBuiltinType t' = true →
  mangleType t e u s = Some (tt, o, s') →
  mangleType t' e' u' s1 = Some (tt, o', s1') →
  o ++ rest = o' ++ rest' →
  t = t' ∧ rest = rest' ∧ s' = s ∧ s1' = s1.
Proof.
  intros Hb Hb' H H'.
  apply mangleType_builtin in H as [-> H]; [|done].
  apply mangleType_builtin in H' as [-> H']; [|done].
  intros Heq.
  destruct t as [| | | | |k|w| | | | | | | | | | | | | | | | | | |];
    try done; [destruct k; try done|..];
    (destruct t' as [| | | | |k'|w'| | | | | | | | | | | | | | | | | | |];
     try done; [destruct k'; try done|..]);
    subst o o';
    repeat first [rewrite append_cons in Heq | rewrite append_nil_l in Heq
                 | rewrite append_assoc in Heq];
    try discriminate;
    try (injection Heq as ->; done).
  injection Heq as Heq.
  apply digits_split in Heq as [Hd Heq];
    try apply decimal_allDigits; try done.
  apply decimal_inj in Hd as ->. by injection Heq as ->.
Qed.

Lemma builtin_type_decodable_witness :
  BuiltinIntegerType 64 = BuiltinIntegerType 64 ∧ "_" = "_"
  ∧ newMangler = newMangler ∧ newMangler = newMangler.
Proof.
  apply (builtin_type_decodable (BuiltinIntegerType 64)
           (BuiltinIntegerType 64) Minimal Maximal 0 1 newMangler newMangler
           "Bi64_" "Bi64_" newMangler newMangler); reflexivity.
Defined.

(** ** Binding generic parameters *)

Lemma wrap32_idemp n : wrap32 (wrap32 n) = wrap32 n.
Proof. unfold wrap32. by rewrite N.Div0.mod_mod. Qed.

Lemma wrap32_add_l n m : wrap32 (wrap32 n + m) = wrap32 (n + m).
Proof. unfold wrap32. by rewrite N.Div0.add_mod_idemp_l. Qed.

(** The [do ... while] loop adds the length of the chain to the depth
    counter and does nothing else. *)
Lemma enterGenericParamLists_Some g :
  ∀ s, enterGenericParamLists g s =
       Some (tt, "",
             {| Substitutions := Substitutions s;
                Archetypes := Archetypes s;
                ArchetypesDepth :=
                  wrap32 (ArchetypesDepth s + N.of_nat (chainLength g)) |}).
Proof.
  induction g as [l outer IH] using GenericParamList_ind. intros s.
  cbn [enterGenericParamLists chainLength].
  erewrite bind_run_silent by reflexivity.
  destruct IH as [g IH|].
  - rewrite IH. cbn [Substitutions Archetypes ArchetypesDepth].
    rewrite wrap32_add_l. do 4 f_equal. lia.
  - reflexivity.
Qed.

(** The loop of [bindGenericParameters]: the archetype at position [i]
    is bound at the current depth with the index counted from the start
    of the list. *)
Lemma bindLoop_assigns (mangle : bool) l :
  ∀ index s o s',
    wrap32 index = index →
    forEachIndexed index l (λ index archetype,
      match archetype with
      | mkArchetype archetypeAddr conformsTo =>
          bindArchetype archetypeAddr index ;;
          if negb mangle then mret tt
          else mangleProtocolList conformsTo ;; emit "_"
      end) s = Some (tt, o, s') →
    framed s s'
    ∧ ∀ i a conformsTo,
        l !! i = Some (mkArchetype a conformsTo) →
        Archetypes s !! a = None
        ∧ Archetypes s' !! a =
            Some {| Depth := ArchetypesDepth s;
                    Index := wrap32 (index + N.of_nat i) |}.
Proof.
  destruct mangler_framed as (_ & _ & Hd & _).
  induction l as [|[a0 c0] l IH]; intros index s o s' Hindex.
  - intros [= <- <-]. split; [apply framed_refl|]. intros i a c [=].
  - rewrite forEachIndexed_cons.
    intros ([] & o1 & s1 & o2 & Hbody & Hrest & ->)%bind_Some.
    apply bind_Some in Hbody as ([] & o3 & sb & o4 & Hbind & Hprot & ->).
    assert (respects framed
              (if negb mangle then mret tt
               else mangleProtocolList c0 ;; emit "_")) as Hp.
    { repeat respects_step. unfold mangleProtocolList.
      apply respects_forEach; [solve_rel..|].
      apply Forall_forall. intros p _. apply (Hd p). }
    pose proof (Hp _ _ _ _ Hprot) as Hsb1.
    pose proof (framed_bindArchetype _ _ _ _ _ _ Hbind) as Hssb.
    apply IH in Hrest as [Hs1s' Hl]; [|apply wrap32_idemp].
    split; [eapply framed_trans; [|exact Hs1s'];
            eapply framed_trans; eauto|].
    assert (ArchetypesDepth s1 = ArchetypesDepth s) as Hdepth.
    { destruct Hsb1 as [_ ->]. by destruct Hssb as [_ ->]. }
    intros [|i] a c Hi.
    + injection Hi as -> ->.
      rewrite N.add_0_r, Hindex.
      destruct Hs1s' as [[_ Hsub] _]. destruct Hsb1 as [[_ Hsub'] _].
      revert Hbind. unfold bindArchetype.
      destruct (Archetypes s !! a); [discriminate|].
      intros [= _ <-]. split; [done|].
      eapply lookup_weaken; [|exact Hsub].
      eapply lookup_weaken; [|exact Hsub'].
      simpl. by rewrite lookup_insert_eq.
    + apply Hl in Hi as [Hnone Hi]. split.
      * destruct Hsb1 as [[_ Hsub'] _]. destruct Hssb as [[_ Hsub] _].
        eapply lookup_weaken_None; [|exact Hsub].
        eapply lookup_weaken_None; [|exact Hsub']. done.
      * rewrite Hi, Hdepth, wrap32_add_l. do 3 f_equal. lia.
Qed.

(** What [bindGenericParameters] does to the state: the depth counter
    grows by the length of the chain of parameter lists; every archetype
    of the list was unbound and is now bound at the new depth with its
    position as index. *)
Lemma bindGenericParameters_Some g mangle s o s' :
  bindGenericParameters g mangle s = Some (tt, o, s') →
  ArchetypesDepth s' =
    wrap32 (ArchetypesDepth s + N.of_nat (chainLength g))
  ∧ ∀ i a conformsTo,
      getAllArchetypes g !! i = Some (mkArchetype a conformsTo) →
      Archetypes s !! a = None
      ∧ Archetypes s' !! a =
          Some {| Depth := ArchetypesDepth s';
                  Index := wrap32 (N.of_nat i) |}.
Proof.
  rewrite bindGenericParameters_eq.
  intros ([] & o1 & s1 & o2 & Henter & H & _)%bind_Some.
  rewrite enterGenericParamLists_Some in Henter.
  injection Henter as <- <-.
  apply bind_Some in H as ([] & o3 & s2 & o4 & Hloop & Hend & _).
  apply bindLoop_assigns in Hloop as [[_ Hdepth] Hl]; [|reflexivity].
  assert (s' = s2) as -> by (destruct mangle; by injection Hend).
  split; [exact Hdepth|].
  intros i a c Hi. apply Hl in Hi as [Hnone Hi].
  rewrite Hdepth. by rewrite N.add_0_l in Hi.
Qed.

Lemma mangleArchetype_run archetype s info :
  Archetypes s !! archetype = Some info →
  (Depth info ≤ ArchetypesDepth s)%N →
  mangleArchetype archetype s =
    Some (tt, archetypeToken (ArchetypesDepth s - Depth info) (Index info), s).
Proof.
  intros Hinfo Hdepth%N.leb_le. unfold mangleArchetype.
  erewrite bind_run by reflexivity. rewrite Hinfo, Hdepth.
  unfold archetypeToken.
  destruct (ArchetypesDepth s - Depth info =? 0)%N; reflexivity.
Qed.

(** X7.  After [bindGenericParameters] the depth counter has grown by
    the number of parameter lists from the given one out (modulo 2^32),
    and the parameter at position [i] of the list is bound at that
    depth with index [i]: a reference to it right there is written [Q]
    and the index [i], with no depth marker, and the reference does not
    change the state. *)
Theorem generic_parameter_reference g mangle s o s' i a conformsTo e u :
  bindGenericParameters g mangle s = Some (tt, o, s') →
  getAllArchetypes g !! i = Some (mkArchetype a conformsTo) →
  ArchetypesDepth s' =
    wrap32 (ArchetypesDepth s + N.of_nat (chainLength g))
  ∧ Archetypes s' !! a =
      Some {| Depth := ArchetypesDepth s'; Index := wrap32 (N.of_nat i) |}
  ∧ mangleType (ArchetypeType a) e u s' =
      Some (tt, "Q" ++ Index_out (wrap32 (N.of_nat i)), s').
Proof.
  intros [Hdepth Hl]%bindGenericParameters_Some Hi.
  apply Hl in Hi as [_ Hi]. split_and!; [done..|].
  rewrite mangleType_eq.
  rewrite (mangleArchetype_run _ _ _ Hi) by (simpl; lia).
  simpl Depth. simpl Index. rewrite N.sub_diag. reflexivity.
Qed.

Lemma generic_parameter_reference_witness :
  ArchetypesDepth insideInnerScope =
    wrap32 (ArchetypesDepth insideOuterScope
            + N.of_nat (chainLength innerGenerics))
  ∧ Archetypes insideInnerScope !! 101%N =
      Some {| Depth := ArchetypesDepth insideInnerScope;
              Index := wrap32 (N.of_nat 0) |}
  ∧ mangleType (ArchetypeType 101) Minimal 0 insideInnerScope =
      Some (tt, "Q" ++ Index_out (wrap32 (N.of_nat 0)), insideInnerScope).
Proof.
  apply (generic_parameter_reference innerGenerics true insideOuterScope
           "__" insideInnerScope 0 101 [] Minimal 0); reflexivity.
Defined.

(** The scope of a polymorphic type binds its parameter list in the
    state it starts from, and what it binds stays. *)
Lemma manglePolymorphicType_binds g T e u asFn s o s' :
  manglePolymorphicType g T e u asFn s = Some (tt, o, s') →
  ∃ ob sb,
    bindGenericParameters g true s = Some (tt, ob, sb)
    ∧ Archetypes sb ⊆ Archetypes s'.
Proof.
  destruct mangler_framed as (Ht & _).
  unfold manglePolymorphicType, SaveAndRestore_ArchetypesDepth.
  intros (s0 & o1 & s1 & o2 & [= <- _ <-] & H & _)%bind_Some.
  apply bind_Some in H as ([] & o3 & s2 & o4 & Hbody & [= _ <-] & _).
  apply bind_Some in Hbody as ([] & ob & sb & o5 & Hbind & Hrest & _).
  exists ob, sb. split; [exact Hbind|]. simpl.
  assert (respects tablesGrow
            (if asFn
             then match castTo_AnyFunctionType T with
                  | Some fn => mangleFunctionType fn e u
                  | None => llvm_unreachable
                  end
             else mangleType T e u)) as Hr.
  { destruct asFn.
    - destruct (castTo_AnyFunctionType T); [|respects_step].
      apply framed_tablesGrow, framed_mangleFunctionType_any.
    - apply framed_tablesGrow, Ht. }
  by apply Hr in Hrest as [_ ?].
Qed.

(** X8.  A generic parameter can be bound once per request: when a
    polymorphic function type has been mangled, mangling any polymorphic
    function type whose parameter list has a parameter in common with
    it (the same type again, for one) later in the request is fatal. *)
Theorem generic_parameter_bound_once g input result isBlock e u s o s'
    g' input' result' isBlock' e' u' s2 a conformsTo conformsTo' :
  mkArchetype a conformsTo ∈ getAllArchetypes g →
  mkArchetype a conformsTo' ∈ getAllArchetypes g' →
  mangleType (PolymorphicFunctionType g input result isBlock) e u s
    = Some (tt, o, s') →
  tablesGrow s' s2 →
  mangleType (PolymorphicFunctionType g' input' result' isBlock') e' u' s2
    = None.
Proof.
  intros [i Hi]%list_elem_of_lookup_1 [j Hj]%list_elem_of_lookup_1.
  rewrite !mangleType_eq.
  intros ([] & o1 & s1 & o2 & [= _ <-] & H & _)%bind_Some [_ Hgrow].
  apply manglePolymorphicType_binds in H as (ob & sb & Hbind & Hsub).
  apply bindGenericParameters_Some in Hbind as [_ Hl].
  apply Hl in Hi as [_ Hi].
  assert (is_Some (Archetypes s2 !! a)) as Hbound.
  { eexists. eapply lookup_weaken; [|exact Hgrow].
    eapply lookup_weaken; [|exact Hsub]. exact Hi. }
  destruct ((emit "U" ;;
             manglePolymorphicType g'
               (PolymorphicFunctionType g' input' result' isBlock')
               e' u' true) s2) as [[[[] o'] s3]|] eqn:Hagain; [|done].
  apply bind_Some in Hagain as ([] & o3 & s4 & o4 & [= _ <-] & H & _).
  apply manglePolymorphicType_binds in H as (ob' & sb' & Hbind' & _).
  apply bindGenericParameters_Some in Hbind' as [_ Hl'].
  apply Hl' in Hj as [Hnone _]. rewrite Hnone in Hbound.
  by destruct Hbound.
Qed.

Lemma generic_parameter_bound_once_witness :
  mangleType simplePoly Maximal 1 afterSimplePoly = None.
Proof.
  apply (generic_parameter_bound_once outerGenerics (ArchetypeType 100)
           (ArchetypeType 100) false Minimal 0 newMangler "U__FQ_Q_"
           afterSimplePoly outerGenerics (ArchetypeType 100)
           (ArchetypeType 100) false Maximal 1 afterSimplePoly 100 [] []).
  - vm_compute. apply list_elem_of_here.
  - vm_compute. apply list_elem_of_here.
  - reflexivity.
  - split; reflexivity.
Defined.

(** ** Uncurry levels beyond the arrows of a type *)

Lemma mangleFunctionType_saturates input result fn e u u' :
  (∀ e u u', (N.of_nat (arrows result) ≤ u)%N →
             (N.of_nat (arrows result) ≤ u')%N →
             sameStep (mangleType result e u) (mangleType result e u')) →
  match fn with
  | FunctionType i r _ | PolymorphicFunctionType _ i r _ =>
      i = input ∧ r = result
  | _ => True
  end →
  (N.of_nat (arrows fn) ≤ u)%N → (N.of_nat (arrows fn) ≤ u')%N →
  sameStep (mangleFunctionType fn e u) (mangleFunctionType fn e u').
Proof.
  intros IH Hfn Hu Hu'. rewrite !mangleFunctionType_eq.
  destruct fn; try apply sameStep_refl; destruct Hfn as [-> ->];
    cbn [arrows] in Hu, Hu';
    (destruct (N.ltb_spec 0 u); [|lia]);
    (destruct (N.ltb_spec 0 u'); [|lia]);
    (apply sameStep_bind; [apply sameStep_refl|intros _]);
    (apply sameStep_bind; [apply sameStep_refl|intros _]);
    apply IH; lia.
Qed.

Lemma mangleType_saturates t :
  ∀ e u u',
    (N.of_nat (arrows t) ≤ u)%N → (N.of_nat (arrows t) ≤ u')%N →
    sameStep (mangleType t e u) (mangleType t e u').
Proof.
  induction t using Ty_ind; intros e u u' Hu Hu';
    rewrite (mangleType_eq _ e u), (mangleType_eq _ e u');
    try apply sameStep_refl.
  - by apply IHt.
  - apply sameStep_bind; [apply sameStep_refl|intros _].
    unfold manglePolymorphicType. apply sameStep_SaveAndRestore.
    apply sameStep_bind; [apply sameStep_refl|intros _].
    rewrite castTo_PolymorphicFunctionType.
    by apply (mangleFunctionType_saturates t1 t2).
  - by apply (mangleFunctionType_saturates t1 t2).
Qed.

Lemma mangleEntity_saturates decl e u u' :
  (N.of_nat (arrows (getType decl)) ≤ u)%N →
  (N.of_nat (arrows (getType decl)) ≤ u')%N →
  sameStep (mangleEntity decl e u) (mangleEntity decl e u')
  ∧ sameStep (mangleDeclType decl e u) (mangleDeclType decl e u').
Proof.
  intros Hu Hu'.
  assert (sameStep (mangleDeclType decl e u) (mangleDeclType decl e u')).
  { rewrite !mangleDeclType_eq.
    apply sameStep_bind; [apply sameStep_refl|intros _].
    apply sameStep_SaveAndRestore.
    apply sameStep_bind; [apply sameStep_refl|intros _].
    destruct (ClassifyDecl decl).1;
      [by apply mangleType_saturates | apply sameStep_refl]. }
  split; [|done]. rewrite !mangleEntity_eq.
  by apply sameStep_bind; [apply sameStep_refl|intros _].
Qed.

(** X9.  The uncurry level saturates: two requests that differ only in
    their uncurry level give the same symbol (or both abort) as soon as
    both levels are at least the number of arrows of the type of the
    declaration. *)
Theorem uncurry_level_saturates entity u u' :
  (N.of_nat (entityArrows entity) ≤ u)%N →
  (N.of_nat (entityArrows entity) ≤ u')%N →
  mangle (withUncurryLevel u entity) = mangle (withUncurryLevel u' entity).
Proof.
  intros Hu Hu'. unfold mangle.
  destruct entity; try reflexivity; cbn [withUncurryLevel];
    cbn [entityArrows] in Hu, Hu';
    destruct (mangleEntity_saturates decl explosion u u' Hu Hu')
      as [He Hd];
    apply sameStep_output; unfold mangleLinkEntity.
  - (* WitnessTableOffset *)
    by apply sameStep_bind; [apply sameStep_refl|intros _].
  - (* Constructor *)
    do 5 (apply sameStep_bind; [apply sameStep_refl|intros _]). done.
  - (* Function *)
    destruct (negb _); [apply sameStep_refl|]. unfold mangleOther.
    destruct (getClangDecl decl) as [[[] ?]|];
      try apply sameStep_refl;
      (do 2 (apply sameStep_bind; [apply sameStep_refl|intros _]); done).
  - (* Other *)
    unfold mangleOther.
    destruct (getClangDecl decl) as [[[] ?]|];
      try apply sameStep_refl;
      (do 2 (apply sameStep_bind; [apply sameStep_refl|intros _]); done).
  - (* Getter *)
    do 2 (apply sameStep_bind; [apply sameStep_refl|intros _]).
    by apply sameStep_bind; [|intros _; apply sameStep_refl].
  - (* Setter *)
    do 2 (apply sameStep_bind; [apply sameStep_refl|intros _]).
    by apply sameStep_bind; [|intros _; apply sameStep_refl].
Qed.

Lemma uncurry_level_saturates_witness :
  mangle (withUncurryLevel 2 (Function fooDecl Minimal 0 false))
  = mangle (withUncurryLevel 7 (Function fooDecl Minimal 0 false)).
Proof.
  apply (uncurry_level_saturates (Function fooDecl Minimal 0 false) 2 7);
    vm_compute; discriminate.
Defined.

(** ** Members of extensions *)

Lemma mangleType_desugar t e u :
  mangleType t e u = mangleType (getDesugaredType t) e u.
Proof.
  induction t using Ty_ind; try reflexivity.
  rewrite mangleType_eq. exact IHt.
Qed.

Lemma mangleDeclContext_extension extended nominal :
  nominalDeclOf extended = Some nominal →
  mangleDeclContext (ExtensionDeclContext extended) =
  mangleDeclContext (NominalTypeDeclContext nominal).
Proof.
  unfold nominalDeclOf. intros H. rewrite !mangleDeclContext_eq.
  rewrite mangleType_desugar.
  destruct (getDesugaredType extended); try discriminate;
    injection H as ->; by rewrite mangleType_eq.
Qed.

(** The productions on a declaration do not tell an extension from the
    type it extends. *)
Lemma inContext_extension extended nominal d :
  nominalDeclOf extended = Some nominal →
  let ext := inContext (ExtensionDeclContext extended) d in
  let direct := inContext (NominalTypeDeclContext nominal) d in
  mangleContextOf ext = mangleContextOf direct
  ∧ (∀ e u, mangleDeclType ext e u = mangleDeclType direct e u)
  ∧ (∀ b, mangleDeclName ext b = mangleDeclName direct b)
  ∧ (∀ e u, mangleEntity ext e u = mangleEntity direct e u)
  ∧ (∀ e, mangleNominalType ext e = mangleNominalType direct e).
Proof.
  intros H%mangleDeclContext_extension ext direct.
  destruct d as [k n t ctx clang objc asm a g]. simpl in ext, direct.
  assert (mangleContextOf ext = mangleContextOf direct) as Hc.
  { rewrite !mangleContextOf_eq. subst ext direct.
    cbn [getDeclContext]. by rewrite H. }
  assert (∀ e u, mangleDeclType ext e u = mangleDeclType direct e u)
    as Ht by (intros; by rewrite !mangleDeclType_eq).
  assert (∀ b, mangleDeclName ext b = mangleDeclName direct b) as Hn.
  { intros b. rewrite !mangleDeclName_eq, Hc.
    by rewrite (Ht Minimal 0%N). }
  split_and!; try done.
  - intros e u. by rewrite !mangleEntity_eq, Hn, Ht.
  - intros e. by rewrite !mangleNominalType_eq, Hn.
Qed.

(** X10.  A member of an extension is mangled as a member of the
    extended type: a request for a declaration in an extension of a
    nominal type gives the same symbol as the request for the same
    declaration placed in the nominal type itself. *)
Theorem extension_member_as_member extended nominal entity :
  nominalDeclOf extended = Some nominal →
  mangle (mapDecl (inContext (ExtensionDeclContext extended)) entity)
  = mangle (mapDecl (inContext (NominalTypeDeclContext nominal)) entity).
Proof.
  intros H. unfold mangle.
  destruct entity; try reflexivity; cbn [mapDecl];
    destruct (inContext_extension extended nominal decl H)
      as (Hc & Ht & Hn & He & Hnom);
    unfold mangleLinkEntity, mangleOther;
    rewrite ?mangleDeclContext_eq, ?Hc, ?Ht, ?He, ?Hnom;
    destruct decl; reflexivity.
Qed.

Lemma extension_member_as_member_witness :
  mangle (Function getInExtensionOfA Minimal 0 false)
  = mangle (Function getInA Minimal 0 false).
Proof.
  apply (extension_member_as_member (StructType structA) structA
           (Function getInA Minimal 0 false)).
  reflexivity.
Defined.

(** ** Invariants of the state

    The state is written in three places only: [addSubstitution], the
    insertion into [Archetypes], and the assignments to
    [ArchetypesDepth].  A reflexive and transitive relation that these
    three respect is respected by every production. *)

Section PrimitiveInvariant.
Variable R : Mangler → Mangler → Prop.
Hypothesis R_refl : ∀ s, R s s.
Hypothesis R_trans : ∀ s1 s2 s3, R s1 s2 → R s2 s3 → R s1 s3.
Hypothesis R_addSubstitution : ∀ ptr, respects R (addSubstitution ptr).
Hypothesis R_bindArchetype :
  ∀ archetype index, respects R (bindArchetype archetype index).
Hypothesis R_setArchetypesDepth :
  ∀ depth, respects R (setArchetypesDepth depth).

Lemma inv_enterGenericParamLists parent :
  respects R (enterGenericParamLists parent).
Proof.
  induction parent as [l outer IH] using GenericParamList_ind. simpl.
  apply respects_bind; [exact R_trans| |intros _].
  - apply respects_bind; [exact R_trans| |intros s].
    + by apply respects_getState.
    + apply R_setArchetypesDepth.
  - destruct IH; [assumption|]. by apply respects_ret.
Qed.

Lemma inv_SaveAndRestore body :
  respects R body → respects R (SaveAndRestore_ArchetypesDepth body).
Proof.
  intros Hbody. unfold SaveAndRestore_ArchetypesDepth.
  apply respects_bind; [exact R_trans| |intros s].
  - by apply respects_getState.
  - apply respects_bind; [exact R_trans|exact Hbody|intros _].
    apply R_setArchetypesDepth.
Qed.

Ltac inv_step :=
  lazymatch goal with
  | |- respects _ (mret _) => by apply respects_ret
  | |- respects _ (emit _) => by apply respects_emit
  | |- respects _ llvm_unreachable => apply respects_unreachable
  | |- respects _ (assert _) => by apply respects_assert
  | |- respects _ (mangleIdentifier _) =>
      by apply respects_mangleIdentifier
  | |- respects _ (tryMangleSubstitution _) =>
      by apply respects_tryMangleSubstitution
  | |- respects _ (tryMangleStandardSubstitution _) =>
      by apply respects_tryMangleStandardSubstitution
  | |- respects _ (mangleArchetype _) =>
      by apply respects_mangleArchetype
  | |- respects _ (mangleBuiltinFloat _) =>
      by apply respects_mangleBuiltinFloat
  | |- respects _ (addSubstitution _) => apply R_addSubstitution
  | |- respects _ (bindArchetype _ _) => apply R_bindArchetype
  | |- respects _ (enterGenericParamLists _) =>
      apply inv_enterGenericParamLists
  | |- respects _ (SaveAndRestore_ArchetypesDepth _) =>
      apply inv_SaveAndRestore
  | |- respects _ (_ ≫= _) =>
      apply respects_bind; [exact R_trans| |intros ?]
  | |- respects _ (if ?b then _ else _) => destruct b
  end.

Lemma inv_mangleContextOf d :
  contextRespects R (getDeclContext d) → respects R (mangleContextOf d).
Proof.
  intros H. rewrite mangleContextOf_eq. repeat inv_step. exact H.
Qed.

Lemma inv_mangleDeclType d :
  typeRespects R (getType d) →
  (∀ g, getGenericParamsOfContext d = Some g → genericsRespect R g) →
  ∀ e u, respects R (mangleDeclType d e u).
Proof.
  intros [Ht _] Hg e u. rewrite mangleDeclType_eq. repeat inv_step.
  - destruct (getGenericParamsOfContext d) as [g|]; [|inv_step].
    by apply Hg.
  - apply Ht.
Qed.

Lemma inv_mangleDeclName d :
  respects R (mangleContextOf d) →
  (∀ e u, respects R (mangleDeclType d e u)) →
  ∀ includeType, respects R (mangleDeclName d includeType).
Proof.
  intros Hc Ht includeType. rewrite mangleDeclName_eq.
  repeat inv_step; auto.
Qed.

Lemma inv_mangleGetterOrSetterContext func :
  kindRespects R (getKind func) →
  respects R (mangleGetterOrSetterContext func).
Proof.
  intros Hk. rewrite mangleGetterOrSetterContext_eq.
  inv_step; [inv_step|].
  assert (∀ D, match getGetterDecl func with
               | Some D => Some D
               | None => getSetterDecl func
               end = Some D → declRespects R D) as HD.
  { unfold getGetterDecl, getSetterDecl.
    destruct (getKind func) as [| | | | | |g s| | | |]; try discriminate.
    destruct Hk as [Hg Hs]. destruct g; [intros D [= <-]|]; auto. }
  destruct (match getGetterDecl func with
            | Some D => Some D
            | None => getSetterDecl func
            end) as [D|]; [|inv_step].
  destruct (HD D eq_refl) as (_ & Ht & Hn & _).
  repeat inv_step; auto.
Qed.

Lemma inv_mangleProtocolName d :
  (∀ includeType, respects R (mangleDeclName d includeType)) →
  respects R (mangleProtocolName d).
Proof.
  intros Hn. rewrite mangleProtocolName_eq. repeat inv_step; auto.
Qed.

Lemma inv_mangleNominalType d :
  (∀ includeType, respects R (mangleDeclName d includeType)) →
  ∀ e, respects R (mangleNominalType d e).
Proof.
  intros Hn e. rewrite mangleNominalType_eq. repeat inv_step; auto.
  destruct (getSpecifierForNominalType d); inv_step.
Qed.

Lemma inv_mangleEntity d :
  (∀ includeType, respects R (mangleDeclName d includeType)) →
  (∀ e u, respects R (mangleDeclType d e u)) →
  ∀ e u, respects R (mangleEntity d e u).
Proof.
  intros Hn Ht e u. rewrite mangleEntity_eq. repeat inv_step; auto.
Qed.

Lemma inv_mangleFunctionType input result fn e u :
  typeRespects R input → typeRespects R result →
  match fn with
  | FunctionType i r _ | PolymorphicFunctionType _ i r _ =>
      i = input ∧ r = result
  | _ => True
  end →
  respects R (mangleFunctionType fn e u).
Proof.
  intros [Hi _] [Hr _] Hfn. rewrite mangleFunctionType_eq.
  destruct fn; try inv_step; destruct Hfn as [-> ->];
    repeat inv_step; auto.
Qed.

Ltac inv_type :=
  split; [intros e u; rewrite mangleType_eq
         | rewrite mangleProtocolType_eq].

Lemma mangler_invariant :
  (∀ t, typeRespects R t)
  ∧ (∀ elt, match elt with mkTupleTypeElt _ t => typeRespects R t end)
  ∧ (∀ d, declRespects R d)
  ∧ (∀ k, kindRespects R k)
  ∧ (∀ ctx, contextRespects R ctx)
  ∧ (∀ expr, exprRespects R expr)
  ∧ (∀ m, moduleRespects R m)
  ∧ (∀ g, genericsRespect R g)
  ∧ (∀ a, archetypeRespects R a).
Proof.
  apply AST_mutind.
  all: try (inv_type; repeat inv_step; fail).
  - (* SugaredType *)
    intros t [Ht Hp]. inv_type; auto.
  - (* MetaTypeType *)
    intros t [Ht _]. inv_type; repeat inv_step; auto.
  - (* LValueType *)
    intros t [Ht _]. inv_type; repeat inv_step; auto.
  - (* TupleType *)
    intros fields Hf%list_all_Forall. inv_type; repeat inv_step.
    apply respects_forEach; [done..|].
    eapply Forall_impl; [exact Hf|]. intros [n t] [Ht _]; simpl.
    inv_step; [|auto]. destruct n; inv_step.
  - (* OneOfType *)
    intros d (_ & _ & _ & _ & _ & Hn & _).
    inv_type; repeat inv_step; auto.
  - (* ProtocolType *)
    intros d (_ & _ & _ & _ & Hp & Hn & _).
    inv_type; repeat inv_step; auto.
  - (* StructType *)
    intros d (_ & _ & _ & _ & _ & Hn & _).
    inv_type; repeat inv_step; auto.
  - (* ClassType *)
    intros d (_ & _ & _ & _ & _ & Hn & _).
    inv_type; repeat inv_step; auto.
  - (* UnboundGenericType *)
    intros d (_ & _ & _ & _ & _ & Hn & _).
    inv_type; repeat inv_step; auto.
  - (* BoundGenericType *)
    intros d (_ & _ & _ & _ & _ & Hn & _) args Ha%list_all_Forall.
    inv_type; repeat inv_step; auto.
    apply respects_forEach; [done..|].
    eapply Forall_impl; [exact Ha|]. by intros t [Ht _].
  - (* PolymorphicFunctionType *)
    intros g Hg input Hi result Hr isBlock.
    inv_type; repeat inv_step.
    unfold manglePolymorphicType. repeat inv_step; [apply Hg|].
    simpl. by apply (inv_mangleFunctionType input result).
  - (* FunctionType *)
    intros input Hi result Hr isBlock.
    inv_type; repeat inv_step.
    by apply (inv_mangleFunctionType input result).
  - (* ArrayType *)
    intros n t [Ht _]. inv_type; repeat inv_step; auto.
  - (* ProtocolCompositionType *)
    intros protocols Hp%list_all_Forall. inv_type; repeat inv_step.
    apply respects_forEach; [done..|].
    eapply Forall_impl; [exact Hp|]. by intros t [_ Ht].
  - (* mkTupleTypeElt *)
    auto.
  - (* mkValueDecl *)
    intros k Hk n t Ht ctx Hctx clang objc asm a g Hg.
    set (d := mkValueDecl k n t ctx clang objc asm a g).
    assert (respects R (mangleContextOf d)) as Hc
      by (by apply inv_mangleContextOf).
    assert (∀ e u, respects R (mangleDeclType d e u)) as Hdt.
    { apply inv_mangleDeclType; [exact Ht|].
      intros g' [= ->]. by inversion Hg. }
    assert (∀ i, respects R (mangleDeclName d i)) as Hn
      by (by apply inv_mangleDeclName).
    unfold declRespects. split_and!; auto.
    + by apply inv_mangleGetterOrSetterContext.
    + by apply inv_mangleProtocolName.
    + by apply inv_mangleNominalType.
    + by apply inv_mangleEntity.
  - (* TypeAliasDecl .. DestructorDecl *) exact I.
  - exact I.
  - exact I.
  - exact I.
  - exact I.
  - exact I.
  - intros g Hg s Hs. split; intros D ->; [by inversion Hg|by inversion Hs].
  - intros; exact I.
  - exact I.
  - exact I.
  - exact I.
  - (* BuiltinModule *)
    intros m _. unfold contextRespects. rewrite mangleDeclContext_eq.
    inv_step.
  - (* ClangModule *)
    intros m _. unfold contextRespects. rewrite mangleDeclContext_eq.
    inv_step.
  - (* TranslationUnit *)
    intros m Hm. unfold contextRespects. rewrite mangleDeclContext_eq.
    repeat inv_step.
    unfold moduleRespects in Hm.
    destruct (getParent m); [exact Hm|inv_step].
  - (* NominalTypeDeclContext *)
    intros d (_ & _ & _ & _ & _ & Hn & _).
    unfold contextRespects. rewrite mangleDeclContext_eq. auto.
  - (* ExtensionDeclContext *)
    intros t [Ht _]. unfold contextRespects. rewrite mangleDeclContext_eq.
    auto.
  - (* CapturingExprContext *)
    intros [[d|]|] He; unfold contextRespects; rewrite mangleDeclContext_eq;
      [|inv_step..].
    destruct He as (_ & _ & Hn & Hg & _).
    destruct (isGetterOrSetter d); auto.
  - (* ConstructorDeclContext *)
    intros d (_ & _ & Hn & _).
    unfold contextRespects. rewrite mangleDeclContext_eq. auto.
  - (* DestructorDeclContext *)
    intros d (_ & _ & Hn & _).
    unfold contextRespects. rewrite mangleDeclContext_eq. auto.
  - (* TopLevelCodeDeclContext *)
    unfold contextRespects. rewrite mangleDeclContext_eq. inv_step.
  - (* FuncExpr *)
    intros [d|] Hd; simpl; [by inversion Hd|exact I].
  - (* OtherCapturingExpr *) exact I.
  - (* mkModule *)
    intros a n [p|] Hp; unfold moduleRespects; simpl;
      [by inversion Hp|exact I].
  - (* mkGenericParamList *)
    intros l Hl%list_all_Forall outer _ mangle.
    rewrite bindGenericParameters_eq. repeat inv_step.
    apply respects_forEachIndexed; [done..|].
    eapply Forall_impl; [exact Hl|]. intros [addr protos] Hp i.
    repeat inv_step.
    unfold mangleProtocolList.
    apply respects_forEach; [done..|].
    eapply Forall_impl; [exact Hp|].
    by intros d (_ & _ & _ & _ & Hpn & _).
  - (* mkArchetype *)
    intros a protos Hp%list_all_Forall. exact Hp.
Qed.

(** ... and by every request. *)
Lemma inv_mangleLinkEntity entity : respects R (mangleLinkEntity entity).
Proof.
  destruct mangler_invariant as (Ht & _ & Hd & _ & Hctx & _).
  destruct entity; unfold mangleLinkEntity, mangleOther, localMarker,
    mangleDirectness;
    try destruct (Hd decl) as (Hc & Hdt & Hn & _ & _ & Hnom & He);
    repeat inv_step; try apply Ht; auto.
  - destruct (mangleValueWitness witness); inv_step.
  - apply Hctx.
  - destruct (getClangDecl decl) as [[[] ?]|]; repeat inv_step; auto.
  - destruct (getClangDecl decl) as [[[] ?]|]; repeat inv_step; auto.
Qed.
End PrimitiveInvariant.

(** ** The substitution table stays dense *)

Lemma preserves_refl P s : preserves P s s.
Proof. by intros H. Qed.

Lemma preserves_trans P s1 s2 s3 :
  preserves P s1 s2 → preserves P s2 s3 → preserves P s1 s3.
Proof. unfold preserves. auto. Qed.

Lemma denseTable_new : denseTable newMangler.
Proof. intros ptr index H. simpl in H. by rewrite lookup_empty in H. Qed.

Lemma denseTable_same s s' :
  Substitutions s' = Substitutions s → denseTable s → denseTable s'.
Proof. unfold denseTable. by intros ->. Qed.

Lemma denseTable_addSubstitution ptr :
  respects (preserves denseTable) (addSubstitution ptr).
Proof.
  intros s [] o s' [= _ <-] Hs.
  destruct (Substitutions s !! ptr) as [i|] eqn:Hptr;
    [by apply (denseTable_same s)|].
  intros p index. cbn [Substitutions].
  rewrite map_size_insert_None by done.
  destruct (decide (p = ptr)) as [->|Hp].
  - rewrite lookup_insert_eq. intros [= <-]. split; [lia|].
    intros p'. destruct (decide (p' = ptr)) as [->|Hp']; [done|].
    rewrite lookup_insert_ne by done. intros [Hlt _]%Hs. lia.
  - rewrite lookup_insert_ne by done. intros Hindex.
    destruct (Hs _ _ Hindex) as [Hlt Huniq]. split; [lia|].
    intros p'. destruct (decide (p' = ptr)) as [->|Hp'].
    + rewrite lookup_insert_eq. intros [= <-]. lia.
    + rewrite lookup_insert_ne by done. apply Huniq.
Qed.

Lemma denseTable_bindArchetype archetype index :
  respects (preserves denseTable) (bindArchetype archetype index).
Proof.
  intros s [] o s'. unfold bindArchetype.
  destruct (Archetypes s !! archetype); [discriminate|].
  intros [= _ <-] Hs. by apply (denseTable_same s).
Qed.

Lemma denseTable_setArchetypesDepth depth :
  respects (preserves denseTable) (setArchetypesDepth depth).
Proof. intros s [] o s' [= _ <-] Hs. by apply (denseTable_same s). Qed.

(** In a dense table a back-reference names one identity. *)
Lemma denseTable_backreference s ptr ptr' o1 o2 s1 s2 rest rest' :
  denseTable s →
  tryMangleSubstitution ptr s = Some (true, o1, s1) →
  tryMangleSubstitution ptr' s = Some (true, o2, s2) →
  o1 ++ rest = o2 ++ rest' →
  ptr = ptr'.
Proof.
  intros Hs
    (-> & [(? & _)|(i & Hi & _ & ->)])%tryMangleSubstitution_cases
    (_ & [(? & _)|(j & Hj & _ & ->)])%tryMangleSubstitution_cases;
    try discriminate.
  fold (indexDigits i) (indexDigits j).
  rewrite !append_cons, !append_nil_l, !append_assoc. intros [= H].
  apply indexDigits_split in H as [-> _].
  by apply (proj2 (Hs _ _ Hj)).
Qed.

(** X11.  The indices of the substitution table stay below its size and
    pairwise distinct through every request and every type, so that
    afterwards, as in the fresh state, a back-reference names one
    identity: two identities whose back-references, each followed by
    more output, give the same bytes are the same identity. *)
Theorem backreference_unambiguous entity t e u s o s' :
  denseTable s →
  mangleLinkEntity entity s = Some (tt, o, s')
  ∨ mangleType t e u s = Some (tt, o, s') →
  denseTable s'
  ∧ ∀ ptr ptr' o1 o2 s1 s2 rest rest',
      tryMangleSubstitution ptr s' = Some (true, o1, s1) →
      tryMangleSubstitution ptr' s' = Some (true, o2, s2) →
      o1 ++ rest = o2 ++ rest' →
      ptr = ptr'.
Proof.
  intros Hs H.
  assert (denseTable s') as Hs'.
  { destruct H as [H|H]; revert Hs.
    - revert H.
      apply (inv_mangleLinkEntity (preserves denseTable)
               (preserves_refl _) (preserves_trans _)
               denseTable_addSubstitution denseTable_bindArchetype
               denseTable_setArchetypesDepth).
    - revert H.
      apply (mangler_invariant (preserves denseTable)
               (preserves_refl _) (preserves_trans _)
               denseTable_addSubstitution denseTable_bindArchetype
               denseTable_setArchetypesDepth). }
  split; [exact Hs'|]. intros ptr ptr' o1 o2 s1 s2 rest rest'.
  by apply denseTable_backreference.
Qed.

Lemma backreference_unambiguous_witness :
  denseTable afterStructA
  ∧ ∀ ptr ptr' o1 o2 s1 s2 rest rest',
      tryMangleSubstitution ptr afterStructA = Some (true, o1, s1) →
      tryMangleSubstitution ptr' afterStructA = Some (true, o2, s2) →
      o1 ++ rest = o2 ++ rest' →
      ptr = ptr'.
Proof.
  apply (backreference_unambiguous (TypeMangling (StructType structA))
           (StructType structA) Minimal 0 newMangler "V1M1A" afterStructA).
  - intros ptr index H. vm_compute in H. discriminate.
  - left. reflexivity.
Defined.

(** ** Symbols of one declaration *)

Lemma output_wrapped (m : Mangle unit) l post s :
  output (emit "_T" ;; localMarker l ;; m ;; emit post) s =
  match output m s with
  | Some body => Some ("_T" ++ (if l then "L" else "") ++ body ++ post)
  | None => None
  end.
Proof.
  unfold output. erewrite bind_run by reflexivity.
  assert (localMarker l s = Some (tt, if l then "L" else "", s)) as Hl
    by (by destruct l).
  erewrite bind_run by exact Hl.
  destruct (m s) as [[[[] body] s1]|] eqn:Hm.
  - erewrite bind_run by exact Hm. reflexivity.
  - by rewrite bind_None.
Qed.

(** X12.  The symbols of one declaration are built around one body:
    when the getter symbol of a declaration is written, it is [_T], an
    [L] for local linkage, the mangling of the declaration, and [g];
    the setter symbol is the same with [s] in place of [g]; and, unless
    the declaration has a Clang declarator, the symbol of the
    declaration itself is the same without the last byte. *)
Theorem accessor_symbols decl e u l o :
  mangle (Getter decl e u l) = Some o →
  ∃ body,
    output (mangleEntity decl e u) newMangler = Some body
    ∧ o = "_T" ++ (if l then "L" else "") ++ body ++ "g"
    ∧ mangle (Setter decl e u l)
      = Some ("_T" ++ (if l then "L" else "") ++ body ++ "s")
    ∧ (getClangDecl decl = None →
       mangle (Other decl e u l)
       = Some ("_T" ++ (if l then "L" else "") ++ body)).
Proof.
  unfold mangle. cbn [mangleLinkEntity]. rewrite !output_wrapped.
  destruct (output (mangleEntity decl e u) newMangler) as [body|] eqn:Hb;
    [|discriminate].
  intros [= <-]. exists body. split_and!; try reflexivity.
  intros Hclang. unfold mangleOther. rewrite Hclang.
  apply output_Some in Hb as ([] & s1 & Hm).
  assert (localMarker l newMangler
          = Some (tt, if l then "L" else "", newMangler)) as Hl
    by (by destruct l).
  unfold output. erewrite bind_run by reflexivity.
  erewrite bind_run by exact Hl. by rewrite Hm.
Qed.

Lemma accessor_symbols_witness :
  ∃ body,
    output (mangleEntity xDecl Minimal 0) newMangler = Some body
    ∧ "_TLV1M1A1xSig" = "_T" ++ "L" ++ body ++ "g"
    ∧ mangle (Setter xDecl Minimal 0 true)
      = Some ("_T" ++ "L" ++ body ++ "s")
    ∧ (getClangDecl xDecl = None →
       mangle (Other xDecl Minimal 0 true) = Some ("_T" ++ "L" ++ body)).
Proof.
  apply (accessor_symbols xDecl Minimal 0 true "_TLV1M1A1xSig").
  reflexivity.
Defined.

(** ** Types that cannot be mangled *)

Lemma alwaysFails_bind_l {A B} (m : Mangle A) (f : A → Mangle B) :
  alwaysFails m → alwaysFails (m ≫= f).
Proof. intros H s. by apply bind_None. Qed.

Lemma alwaysFails_bind_r {A B} (m : Mangle A) (f : A → Mangle B) :
  (∀ a, alwaysFails (f a)) → alwaysFails (m ≫= f).
Proof.
  intros H s. destruct (m s) as [[[a o] s1]|] eqn:Hm.
  - erewrite bind_run by exact Hm. by rewrite H.
  - by apply bind_None.
Qed.

Lemma alwaysFails_forEach {A} (l : list A) f :
  Exists (λ x, alwaysFails (f x)) l → alwaysFails (forEach l f).
Proof.
  induction 1 as [x l Hx|x l _ IH]; rewrite forEach_cons.
  - by apply alwaysFails_bind_l.
  - by apply alwaysFails_bind_r.
Qed.

Lemma alwaysFails_SaveAndRestore body :
  alwaysFails body → alwaysFails (SaveAndRestore_ArchetypesDepth body).
Proof.
  intros H. unfold SaveAndRestore_ArchetypesDepth.
  apply alwaysFails_bind_r. intros s. by apply alwaysFails_bind_l.
Qed.

Lemma alwaysFails_mangleFunctionType input result fn e u :
  (hasUnmangleablePart input = true →
   ∀ e u, alwaysFails (mangleType input e u)) →
  (hasUnmangleablePart result = true →
   ∀ e u, alwaysFails (mangleType result e u)) →
  match fn with
  | FunctionType i r _ | PolymorphicFunctionType _ i r _ =>
      i = input ∧ r = result
  | _ => True
  end →
  hasUnmangleablePart input || hasUnmangleablePart result = true →
  alwaysFails (mangleFunctionType fn e u).
Proof.
  intros Hi Hr Hfn H. rewrite mangleFunctionType_eq.
  destruct fn; try (by intros s); destruct Hfn as [-> ->];
    (apply alwaysFails_bind_r; intros _;
     apply orb_true_iff in H as [H|H];
     [apply alwaysFails_bind_l; by apply Hi
     |apply alwaysFails_bind_r; intros _; by apply Hr]).
Qed.

Lemma hasUnmangleablePart_fatal t :
  hasUnmangleablePart t = true → ∀ e u, alwaysFails (mangleType t e u).
Proof.
  induction t using Ty_mutind with
    (P0 := λ elt, match elt with
                  | mkTupleTypeElt _ t =>
                      hasUnmangleablePart t = true →
                      ∀ e u, alwaysFails (mangleType t e u)
                  end)
    (P1 := λ _, True) (P2 := λ _, True) (P3 := λ _, True)
    (P4 := λ _, True) (P5 := λ _, True) (P6 := λ _, True)
    (P7 := λ _, True);
    try exact I; try assumption; try discriminate;
    cbn [hasUnmangleablePart]; intros Hbad e u; rewrite mangleType_eq;
    try (intros s; reflexivity); try (by apply IHt).
  - (* BuiltinFloatType *)
    destruct fpKind; try discriminate. by intros s.
  - (* MetaTypeType *)
    apply alwaysFails_bind_r. intros _. by apply IHt.
  - (* LValueType *)
    apply alwaysFails_bind_r. intros _. by apply IHt.
  - (* TupleType *)
    apply alwaysFails_bind_r. intros _. apply alwaysFails_bind_l.
    apply alwaysFails_forEach.
    match goal with Hl : list_all _ _ _ |- _ =>
      apply list_all_Forall in Hl; rename Hl into Hfields
    end.
    apply existsb_exists in Hbad as ([n t] & Hin & Ht).
    apply Exists_exists. exists (mkTupleTypeElt n t).
    split; [by apply list_elem_of_In|].
    apply alwaysFails_bind_r. intros _.
    rewrite Forall_forall in Hfields.
    apply (Hfields (mkTupleTypeElt n t)); [by apply list_elem_of_In|done].
  - (* BoundGenericType *)
    apply alwaysFails_bind_r. intros _.
    apply alwaysFails_bind_r. intros _.
    apply alwaysFails_bind_l. apply alwaysFails_forEach.
    match goal with Hl : list_all _ _ _ |- _ =>
      apply list_all_Forall in Hl; rename Hl into Hargs
    end.
    apply existsb_exists in Hbad as (t & Hin & Ht).
    apply Exists_exists. exists t. split; [by apply list_elem_of_In|].
    rewrite Forall_forall in Hargs.
    apply (Hargs t); [by apply list_elem_of_In|done].
  - (* PolymorphicFunctionType *)
    apply alwaysFails_bind_r. intros _.
    unfold manglePolymorphicType. apply alwaysFails_SaveAndRestore.
    apply alwaysFails_bind_r. intros _.
    rewrite castTo_PolymorphicFunctionType.
    by apply (alwaysFails_mangleFunctionType t1 t2).
  - (* FunctionType *)
    by apply (alwaysFails_mangleFunctionType t1 t2).
  - (* ArrayType *)
    apply alwaysFails_bind_r. intros _.
    apply alwaysFails_bind_r. intros _. by apply IHt.
Qed.

(** X13.  A type that has an error, unresolved or module type, or the
    PPC 128-bit float, anywhere in its structure (under sugar, in a
    metatype, lvalue, array, tuple field, generic argument, function
    argument or result) is fatal to mangle, in every state; and so is
    every request for such a type. *)
Theorem unmangleable_part_fatal entity t e u s :
  hasUnmangleablePart t = true →
  mangleType t e u s = None
  ∧ (entityType entity = Some t → mangle entity = None).
Proof.
  intros H. pose proof (hasUnmangleablePart_fatal t H) as Hfatal.
  split; [apply Hfatal|].
  assert (∀ {A} (m : Mangle A) s, alwaysFails m → output m s = None)
    as Hout by (intros A m s' Hm; unfold output; by rewrite Hm).
  unfold mangle.
  destruct entity; try discriminate; intros [= ->]; apply Hout;
    unfold mangleLinkEntity;
    repeat first [ apply Hfatal
                 | apply alwaysFails_bind_r; intros _ ].
Qed.

Lemma unmangleable_part_fatal_witness :
  mangleType (FunctionType (StructType Int64Decl) ErrorType false)
    Minimal 0 newMangler = None
  ∧ (entityType
       (TypeMetadata (FunctionType (StructType Int64Decl) ErrorType false)
          false false)
     = Some (FunctionType (StructType Int64Decl) ErrorType false) →
     mangle
       (TypeMetadata (FunctionType (StructType Int64Decl) ErrorType false)
          false false) = None).
Proof.
  apply (unmangleable_part_fatal
           (TypeMetadata (FunctionType (StructType Int64Decl) ErrorType false)
              false false)
           (FunctionType (StructType Int64Decl) ErrorType false)
           Minimal 0 newMangler).
  reflexivity.
Defined.

(** ** Types that are mangled the same everywhere *)

Lemma stateless_ret {A} (a : A) : stateless (mret a).
Proof. by exists a, "". Qed.

Lemma stateless_emit o : stateless (emit o).
Proof. by exists tt, o. Qed.

Lemma stateless_bind {A B} (m : Mangle A) (f : A → Mangle B) :
  stateless m → (∀ a, stateless (f a)) → stateless (m ≫= f).
Proof.
  intros (a & o1 & Hm) Hf. destruct (Hf a) as (b & o2 & Hfa).
  exists b, (o1 ++ o2). intros s.
  erewrite bind_run by apply Hm. by rewrite Hfa.
Qed.

Lemma stateless_forEach {A} (l : list A) f :
  Forall (λ x, stateless (f x)) l → stateless (forEach l f).
Proof.
  induction 1 as [|x l Hx _ IH]; [apply stateless_ret|].
  rewrite forEach_cons. by apply stateless_bind.
Qed.

Lemma stateless_mangleOperatorChars o :
  allOperatorChars o = true → stateless (mangleOperatorChars o).
Proof.
  induction o as [|c o IH]; [intros _; apply stateless_ret|].
  simpl. destruct (mangleOperatorChar c); [|discriminate].
  intros H. apply stateless_bind; [apply stateless_emit|auto].
Qed.

Lemma stateless_mangleIdentifier ident :
  identifierMangles ident = true → stateless (mangleIdentifier ident).
Proof.
  unfold identifierMangles, mangleIdentifier.
  intros [-> H]%andb_true_iff.
  apply stateless_bind; [apply stateless_ret|intros _].
  destruct (isOperator ident); simpl in *.
  - repeat (apply stateless_bind; [apply stateless_emit|intros _]).
    by apply stateless_mangleOperatorChars.
  - apply stateless_bind; [apply stateless_emit|intros _].
    apply stateless_emit.
Qed.

Lemma stateless_mangleNominalType decl e :
  isStandardSubstitution decl = true →
  stateless (mangleNominalType decl e).
Proof.
  unfold isStandardSubstitution. intros H.
  assert (∃ o, ∀ s, tryMangleStandardSubstitution decl s
                    = Some (true, o, s)) as [o Hstd].
  { unfold tryMangleStandardSubstitution.
    destruct (dyn_cast_Module _) as [parent|]; [|discriminate].
    apply andb_true_iff in H as [-> H]. simpl negb. cbv iota.
    simpl in H.
    repeat match goal with
           | |- context [String.eqb ?x ?y] =>
               destruct (String.eqb x y); [by eexists|]
           end.
    discriminate. }
  exists tt, o. intros s. rewrite mangleNominalType_eq.
  erewrite bind_run by apply Hstd. simpl. by rewrite append_nil_r.
Qed.

Lemma contextFree_stateless t :
  contextFree t = true → ∀ e u, stateless (mangleType t e u).
Proof.
  induction t using Ty_mutind with
    (P0 := λ elt, match elt with
                  | mkTupleTypeElt _ t =>
                      contextFree t = true →
                      ∀ e u, stateless (mangleType t e u)
                  end)
    (P1 := λ _, True) (P2 := λ _, True) (P3 := λ _, True)
    (P4 := λ _, True) (P5 := λ _, True) (P6 := λ _, True)
    (P7 := λ _, True);
    try exact I; try assumption; try discriminate;
    cbn [contextFree]; intros Hfree e u; rewrite mangleType_eq;
    try apply stateless_emit; try (by apply IHt);
    try (by apply stateless_mangleNominalType).
  - (* BuiltinFloatType *)
    destruct fpKind; try discriminate; apply stateless_emit.
  - (* MetaTypeType *)
    apply stateless_bind; [apply stateless_emit|intros _]. by apply IHt.
  - (* LValueType *)
    apply stateless_bind; [apply stateless_emit|intros _]. by apply IHt.
  - (* TupleType *)
    apply stateless_bind; [apply stateless_emit|intros _].
    apply stateless_bind; [|intros _; apply stateless_emit].
    apply stateless_forEach.
    match goal with Hl : list_all _ _ _ |- _ =>
      apply list_all_Forall in Hl; rename Hl into Hfields
    end.
    rewrite forallb_forall in Hfree.
    rewrite Forall_forall in Hfields. apply Forall_forall.
    intros [n t] Hin.
    specialize (Hfree _ (proj1 (list_elem_of_In _ _) Hin)).
    apply andb_true_iff in Hfree as [Hn Ht].
    apply stateless_bind; [|intros _; by apply (Hfields _ Hin)].
    destruct n; [by apply stateless_mangleIdentifier|apply stateless_ret].
  - (* BoundGenericType *)
    apply andb_true_iff in Hfree as [Hd Hargs].
    apply stateless_bind; [apply stateless_emit|intros _].
    apply stateless_bind;
      [by apply stateless_mangleNominalType|intros _].
    apply stateless_bind; [|intros _; apply stateless_emit].
    apply stateless_forEach.
    match goal with Hl : list_all _ _ _ |- _ =>
      apply list_all_Forall in Hl; rename Hl into IHargs
    end.
    rewrite forallb_forall in Hargs.
    rewrite Forall_forall in IHargs. apply Forall_forall.
    intros t Hin. apply (IHargs _ Hin).
    by apply Hargs, list_elem_of_In.
  - (* FunctionType *)
    apply andb_true_iff in Hfree as [Hi Hr].
    rewrite mangleFunctionType_eq.
    apply stateless_bind; [|intros _].
    { destruct isBlock; apply stateless_emit. }
    apply stateless_bind; [by apply IHt1|intros _]. by apply IHt2.
  - (* ArrayType *)
    repeat (apply stateless_bind; [apply stateless_emit|intros _]).
    by apply IHt.
Qed.

(** X14.  A type built from the builtin types and the standard names
    of the module [swift] by sugar, metatypes, lvalues, arrays, tuples
    with well-formed field names, generic arguments and function arrows
    is mangled the same everywhere: the mangling never aborts, writes
    the same bytes from every state, and leaves the state as it is. *)
Theorem context_free_type t e u :
  contextFree t = true →
  ∃ o, ∀ s, mangleType t e u s = Some (tt, o, s).
Proof.
  intros H. destruct (contextFree_stateless t H e u) as ([] & o & Ho).
  by exists o.
Qed.

Lemma context_free_type_witness :
  ∃ o, ∀ s, mangleType curriedType Minimal 1 s = Some (tt, o, s).
Proof.
  apply (context_free_type curriedType Minimal 1). reflexivity.
Defined.

(** ** One table entry per key *)

(** X15.  The substitution table is keyed by the address alone: once
    an identity is recorded, every identity with the same key is
    written as a back-reference to it.  A protocol first named in a
    protocol list, where it is spelled without the [P] of a protocol
    type, is written afterwards, as a type, as a back-reference to that
    entry, and the other way round. *)
Theorem substitution_entry_shared x y s0 o1 s1 s2 :
  hasFixedToken x = false →
  hasFixedToken y = false →
  identityOf x = identityOf y →
  Substitutions s0 !! identityOf x = None →
  mangleOccurrence x s0 = Some (tt, o1, s1) →
  Substitutions s1 ⊆ Substitutions s2 →
  ∃ index,
    Substitutions s1 !! identityOf x = Some index
    ∧ mangleOccurrence y s2 = Some (tt, backReference index, s2).
Proof.
  intros Hx Hy Hkey Hnone H Hsub.
  rewrite mangleOccurrence_first in H by assumption.
  apply bind_Some in H as ([] & spelling & s' & o4 & _ & Hadd & _).
  apply addSubstitution_Some in Hadd as (_ & index & Hidx & _).
  exists index. split; [exact Hidx|].
  apply mangleOccurrence_recorded; [assumption|].
  rewrite <- Hkey. eapply lookup_weaken; eassumption.
Qed.

Lemma substitution_entry_shared_witness :
  ∃ index,
    Substitutions afterProtocolR !! identityOf (SubstProtocol protocolR)
      = Some index
    ∧ mangleOccurrence (SubstNominalType protocolR) afterProtocolR
      = Some (tt, backReference index, afterProtocolR).
Proof.
  apply (substitution_entry_shared (SubstProtocol protocolR)
           (SubstNominalType protocolR) newMangler "1M1R" afterProtocolR
           afterProtocolR); reflexivity.
Defined.

(** ** Metadata and field offsets *)

Lemma output_bind_emit {A} (o : string) (m : Mangle A) s :
  output (emit o ;; m) s =
  match output m s with
  | Some rest => Some (o ++ rest)
  | None => None
  end.
Proof.
  unfold output. erewrite bind_run by reflexivity.
  by destruct (m s) as [[[a o'] s']|].
Qed.

Lemma output_TypeMetadata type isPattern isIndirect :
  mangle (TypeMetadata type isPattern isIndirect) =
  match mangle (TypeMangling type) with
  | Some rest =>
      Some ("_TM" ++ (if isPattern then "P" else "")
                  ++ (if isIndirect then "i" else "d") ++ rest)
  | None => None
  end.
Proof.
  unfold mangle. cbn [mangleLinkEntity]. rewrite output_bind_emit.
  unfold mangleDirectness.
  assert (∀ m : Mangle unit,
            output ((if isPattern then emit "P" else mret tt) ;; m)
              newMangler
            = match output m newMangler with
              | Some rest => Some ((if isPattern then "P" else "") ++ rest)
              | None => None
              end) as ->.
  { intros m. destruct isPattern; [apply output_bind_emit|].
    unfold output. erewrite bind_run by reflexivity.
    by destruct (m newMangler) as [[[a o'] s']|]. }
  rewrite output_bind_emit.
  by destruct (output (mangleType type Minimal 0) newMangler).
Qed.

Lemma output_FieldOffset decl isIndirect :
  mangle (FieldOffset decl isIndirect) =
  match output (mangleEntity decl Minimal 0) newMangler with
  | Some rest => Some ("_TWv" ++ (if isIndirect then "i" else "d") ++ rest)
  | None => None
  end.
Proof.
  unfold mangle. cbn [mangleLinkEntity]. rewrite output_bind_emit.
  unfold mangleDirectness. rewrite output_bind_emit.
  by destruct (output (mangleEntity decl Minimal 0) newMangler).
Qed.

(** X16.  The flags of a metadata or field-offset request can be read
    back from its symbol: two type-metadata requests with the same
    symbol agree on the pattern flag and on the directness, and their
    types have the same mangling; two field-offset requests with the
    same symbol agree on the directness, and their declarations have
    the same mangling. *)
Theorem metadata_flags_decodable o :
  (∀ type isPattern isIndirect type' isPattern' isIndirect',
     mangle (TypeMetadata type isPattern isIndirect) = Some o →
     mangle (TypeMetadata type' isPattern' isIndirect') = Some o →
     isPattern = isPattern' ∧ isIndirect = isIndirect'
     ∧ mangle (TypeMangling type) = mangle (TypeMangling type'))
  ∧ (∀ decl isIndirect decl' isIndirect',
       mangle (FieldOffset decl isIndirect) = Some o →
       mangle (FieldOffset decl' isIndirect') = Some o →
       isIndirect = isIndirect'
       ∧ output (mangleEntity decl Minimal 0) newMangler
         = output (mangleEntity decl' Minimal 0) newMangler).
Proof.
  split.
  - intros t p i t' p' i'. rewrite !output_TypeMetadata.
    destruct (mangle (TypeMangling t)) as [r|]; [|discriminate].
    destruct (mangle (TypeMangling t')) as [r'|]; [|discriminate].
    intros [= <-]. destruct p, i, p', i';
      repeat first [rewrite append_cons | rewrite append_nil_l];
      intros [= H]; try discriminate; by subst.
  - intros d i d' i'. rewrite !output_FieldOffset.
    destruct (output (mangleEntity d Minimal 0) newMangler) as [r|];
      [|discriminate].
    destruct (output (mangleEntity d' Minimal 0) newMangler) as [r'|];
      [|discriminate].
    intros [= <-]. destruct i, i';
      repeat first [rewrite append_cons | rewrite append_nil_l];
      intros [= H]; try discriminate; by subst.
Qed.

Lemma metadata_flags_decodable_witness :
  true = true ∧ false = false
  ∧ mangle (TypeMangling (StructType structA))
    = mangle (TypeMangling (StructType structA)).
Proof.
  apply (proj1 (metadata_flags_decodable "_TMPdV1M1A")
           (StructType structA) true false (StructType structA) true false);
    reflexivity.
Defined.

(** ** Declarations local to a function *)





